(** * rt-app trace analysis ([lisa/analysis/rta.py]): a shallow embedding

    The analysis class [RTAEventsAnalysis] reads the tables of a loaded
    trace and derives the rt-app tasks, their phases and their
    per-activation statistics; the older [PerfAnalysis] keeps the frames
    parsed from rt-app log files.  Data frames are lists of rows in index
    order, one record type per ftrace event; a raised Python exception is
    the left injection of a sum.

    Modelling conventions:
    - the index of an event table ([Time]) is the trace-clock instant of
      the row, counted here in integer ticks ([Z]); the sums and
      differences of instants are stated as the code forms them
      ([start + duration], [end - start]) and no property rests on
      simplifying one into the other;
    - integer columns are [int64]: a value is kept as its integer ([Z])
      and the arithmetic between two columns wraps around ([int64]);
    - the float columns the code computes with ([data], [perf_index]) are
      binary64 values ([PrimFloat.float]);
    - columns the analysis never reads ([__cpu], [__line]) are left out;
    - [@memoized] and [@TraceAnalysisBase.cache] only avoid recomputation
      and are not modelled. *)

From Stdlib Require Import ZArith String Ascii Bool Lia List.
From Stdlib Require Import Sorted Permutation Floats.
Import ListNotations.

Local Open Scope string_scope.
Local Open Scope list_scope.
Local Open Scope Z_scope.

(** ** Exceptions and the error monad *)

Inductive exn : Type :=
| MissingTraceEventError
| ValueError
| IndexError
| KeyError
| TypeError
| InvalidIndexError
| UnboundLocalError.

Definition result (A : Type) : Type := (exn + A)%type.

Definition ret {A : Type} (a : A) : result A := inr a.
Definition raise {A : Type} (e : exn) : result A := inl e.

Definition bind {A B : Type} (c : result A) (k : A -> result B) : result B :=
  match c with
  | inl e => inl e
  | inr a => k a
  end.

Notation "x <- c ;; k" := (bind c (fun x => k))
  (at level 61, c at next level, right associativity).

Fixpoint mapM {A B : Type} (f : A -> result B) (l : list A) : result (list B) :=
  match l with
  | [] => ret []
  | a :: l' => b <- f a ;; bs <- mapM f l' ;; ret (b :: bs)
  end.

(** ** Sorting

    A stable insertion sort for a total boolean order; it stands for
    [sorted] on totally ordered keys and for the pandas sorts. *)

Section StableSort.
Context {A : Type} (leb : A -> A -> bool).

Fixpoint insert_sorted (x : A) (l : list A) : list A :=
  match l with
  | [] => [x]
  | y :: l' => if leb x y then x :: l else y :: insert_sorted x l'
  end.

Definition stable_sort (l : list A) : list A :=
  fold_right insert_sorted [] l.

(** The order as a relation. *)
Definition le_of (a b : A) : Prop := leb a b = true.
End StableSort.

(** ** Positional access: [df.iloc[i]], [df.head(n)], [df.tail(1)] *)

Definition iloc {A : Type} (l : list A) (i : Z) : result A :=
  let n := Z.of_nat (length l) in
  let j := if i <? 0 then i + n else i in
  if (j <? 0) || (n <=? j) then raise IndexError
  else match nth_error l (Z.to_nat j) with
       | Some a => ret a
       | None => raise IndexError
       end.

Definition head {A : Type} (n : Z) (l : list A) : list A :=
  if 0 <=? n then firstn (Z.to_nat n) l
  else firstn (Z.to_nat (Z.of_nat (length l) + n)) l.

Definition tail1 {A : Type} (l : list A) : list A :=
  skipn (length l - 1) l.

(** ** Data model *)

(** [lisa.trace.TaskID]: a named tuple [(pid, comm)]. *)
Record TaskID : Type := mkTaskID { pid : Z; comm : string }.

Definition TaskID_eqb (a b : TaskID) : bool :=
  (pid a =? pid b) && (comm a =? comm b)%string.

(** Tuple order on [TaskID]: by [pid], then by [comm]. *)
Definition TaskID_ltb (a b : TaskID) : bool :=
  (pid a <? pid b) || ((pid a =? pid b) && String.ltb (comm a) (comm b)).

Definition TaskID_lt (a b : TaskID) : Prop :=
  pid a < pid b \/ (pid a = pid b /\ String.ltb (comm a) (comm b) = true).

(** [sorted] only asks [<]: [a] stays before [b] unless [b < a]. *)
Definition TaskID_leb (a b : TaskID) : bool := negb (TaskID_ltb b a).

(** The [task] argument of the getters: omitted ([None]), a pid, a name
    or a [TaskID]. *)
Inductive TaskArg : Type :=
| TNone
| TPid (p : Z)
| TName (s : string)
| TId (t : TaskID).

(** Python truth value of a [task] argument: [None], [0] and [''] are
    falsy, a named tuple with two fields is never empty. *)
Definition truthy (task : TaskArg) : bool :=
  match task with
  | TNone => false
  | TPid p => negb (p =? 0)
  | TName s => negb (s =? "")%string
  | TId _ => true
  end.

(** Named tuples of the module. *)
Record RefTime : Type := mkRefTime { kernel : Z; user : float }.

Record PhaseWindow : Type := mkPhaseWindow { id : Z; start : Z; end_ : Z }.

(** Columns every event table has: the index and the task columns. *)
Class EventTable (R : Type) : Type := {
  Time : R -> Z;
  __pid : R -> Z;
  __comm : R -> string
}.

(** Rows of ``rtapp_main``. *)
Record MainRow : Type := mkMainRow {
  main_Time : Z;
  main_comm : string;
  main_pid : Z;
  main_event : string;
  main_data : float
}.

(** Rows of ``rtapp_task``. *)
Record TaskRow : Type := mkTaskRow {
  task_Time : Z;
  task_comm : string;
  task_pid : Z;
  task_event : string
}.

(** Rows of ``rtapp_loop``. *)
Record LoopRow : Type := mkLoopRow {
  loop_Time : Z;
  loop_comm : string;
  loop_pid : Z;
  event : string;
  phase : Z;
  phase_loop : Z;
  thread_loop : Z
}.

(** Rows of ``rtapp_event``. *)
Record EventRow : Type := mkEventRow {
  event_Time : Z;
  event_comm : string;
  event_pid : Z;
  event_type : Z;
  event_desc : string;
  event_id : Z
}.

(** Rows of ``rtapp_stats``. *)
Record StatsRow : Type := mkStatsRow {
  stats_Time : Z;
  stats_comm : string;
  stats_pid : Z;
  slack : Z;
  c_run : Z;
  c_period : Z;
  wu_lat : Z
}.

#[export] Instance MainRow_table : EventTable MainRow :=
  {| Time := main_Time; __pid := main_pid; __comm := main_comm |}.
#[export] Instance TaskRow_table : EventTable TaskRow :=
  {| Time := task_Time; __pid := task_pid; __comm := task_comm |}.
#[export] Instance LoopRow_table : EventTable LoopRow :=
  {| Time := loop_Time; __pid := loop_pid; __comm := loop_comm |}.
#[export] Instance EventRow_table : EventTable EventRow :=
  {| Time := event_Time; __pid := event_pid; __comm := event_comm |}.
#[export] Instance StatsRow_table : EventTable StatsRow :=
  {| Time := stats_Time; __pid := stats_pid; __comm := stats_comm |}.

(** The loaded trace ([self.trace]), as far as the analysis uses it: one
    table per rt-app event, absent when the event was not captured, and
    the task resolver [get_task_id] of [lisa.trace.Trace], which is not
    part of this module and is taken as given. *)
Record Trace : Type := mkTrace {
  rtapp_main : option (list MainRow);
  rtapp_task : option (list TaskRow);
  rtapp_loop : option (list LoopRow);
  rtapp_event : option (list EventRow);
  rtapp_stats : option (list StatsRow);
  get_task_id : TaskArg -> result TaskID
}.

(** [self.trace.df_events(event)] raises [MissingTraceEventError] when
    the event is not in the trace. *)
Definition df_events {R : Type} (table : option (list R)) : result (list R) :=
  match table with
  | Some df => ret df
  | None => raise MissingTraceEventError
  end.

(** [df[['__pid', '__comm']].values] of the table of a named event. *)
Definition task_columns {R : Type} `{EventTable R} (df : list R) : list TaskID :=
  map (fun r => mkTaskID (__pid r) (__comm r)) df.

Definition df_events_tasks (trace : Trace) (ev : string) : result (list TaskID) :=
  if (ev =? "rtapp_main")%string then
    df <- df_events (rtapp_main trace) ;; ret (task_columns df)
  else if (ev =? "rtapp_task")%string then
    df <- df_events (rtapp_task trace) ;; ret (task_columns df)
  else if (ev =? "rtapp_loop")%string then
    df <- df_events (rtapp_loop trace) ;; ret (task_columns df)
  else if (ev =? "rtapp_event")%string then
    df <- df_events (rtapp_event trace) ;; ret (task_columns df)
  else if (ev =? "rtapp_stats")%string then
    df <- df_events (rtapp_stats trace) ;; ret (task_columns df)
  else raise MissingTraceEventError.

(** ** Task registry *)

Definition RTAPP_USERSPACE_EVENTS : list string :=
  [ "rtapp_main"; "rtapp_task"; "rtapp_loop"; "rtapp_event"; "rtapp_stats" ].

Definition has_events (trace : Trace) (ev : string) : bool :=
  match df_events_tasks trace ev with
  | inr _ => true
  | inl _ => false
  end.

(** Modelled from the spec: the decorators [requires_events] and
    [requires_one_event_of] of [lisa.trace] are not in the analysed file;
    they guard a method, which fails with [MissingTraceEventError] unless
    every listed event, respectively at least one of them, is in the
    trace. *)
Definition requires_events {A : Type} (trace : Trace) (evs : list string)
    (body : result A) : result A :=
  if forallb (has_events trace) evs then body else raise MissingTraceEventError.

Definition requires_one_event_of {A : Type} (trace : Trace) (evs : list string)
    (body : result A) : result A :=
  if existsb (has_events trace) evs then body else raise MissingTraceEventError.

(** [task_ids.add(t)] on a set kept as a duplicate-free list. *)
Definition set_add (t : TaskID) (s : list TaskID) : list TaskID :=
  if existsb (TaskID_eqb t) s then s else s ++ [t].

(** [df.drop_duplicates()]: the first occurrence of every row. *)
Fixpoint drop_duplicates (l : list TaskID) : list TaskID :=
  match l with
  | [] => []
  | t :: l' => t :: filter (fun u => negb (TaskID_eqb t u)) (drop_duplicates l')
  end.

(** One turn of the loop over the events: a missing event is skipped,
    the tasks of a present one are added. *)
Definition add_event_tasks (trace : Trace) (task_ids : list TaskID) (ev : string)
    : list TaskID :=
  match df_events_tasks trace ev with
  | inl _ => task_ids
  | inr df => fold_left (fun s t => set_add t s) (drop_duplicates df) task_ids
  end.

Definition rtapp_tasks (trace : Trace) : result (list TaskID) :=
  requires_one_event_of trace RTAPP_USERSPACE_EVENTS
    (let task_ids := fold_left (add_event_tasks trace) RTAPP_USERSPACE_EVENTS [] in
     ret (stable_sort TaskID_leb task_ids)).

(** ** Task event filter *)

(** Modelled from the spec: [lisa.datautils.df_filter_task_ids] is not in
    the analysed file; it keeps the rows whose (pid, name) match one of
    the given tasks, in their original order. *)
Definition df_filter_task_ids {R : Type} `{EventTable R}
    (df : list R) (task_ids : list TaskID) : list R :=
  filter (fun r => existsb (TaskID_eqb (mkTaskID (__pid r) (__comm r))) task_ids) df.

Definition _task_filtered {R : Type} `{EventTable R}
    (trace : Trace) (df : list R) (task : TaskArg) : result (list R) :=
  if negb (truthy task) then ret df
  else
    task <- get_task_id trace task ;;
    tasks <- rtapp_tasks trace ;;
    if negb (existsb (TaskID_eqb task) tasks) then raise ValueError
    else ret (df_filter_task_ids df [task]).

(** ** Reference time *)

Definition df_rtapp_main (trace : Trace) : result (list MainRow) :=
  requires_events trace ["rtapp_main"] (df_events (rtapp_main trace)).

Definition rtapp_reftime (trace : Trace) : result RefTime :=
  requires_events trace ["rtapp_main"]
    (df <- df_rtapp_main trace ;;
     let df := filter (fun r => (main_event r =? "clock_ref")%string) df in
     k <- iloc (map Time df) 0 ;;
     u <- iloc (map main_data df) 0 ;;
     ret (mkRefTime k u)).

(** ** Loop events and phase markers *)

Definition df_rtapp_loop (trace : Trace) (task : TaskArg) : result (list LoopRow) :=
  requires_events trace ["rtapp_loop"]
    (df <- df_events (rtapp_loop trace) ;;
     _task_filtered trace df task).

(** Key of [groupby(['__comm', '__pid', 'phase', 'event'])]. *)
Definition group_key (r : LoopRow) : string * Z * Z * string :=
  (__comm r, __pid r, phase r, event r).

Definition group_key_eqb (a b : string * Z * Z * string) : bool :=
  let '(c1, p1, ph1, e1) := a in
  let '(c2, p2, ph2, e2) := b in
  (c1 =? c2)%string && (p1 =? p2) && (ph1 =? ph2) && (e1 =? e2)%string.

(** [df.groupby(keys).head(1)]: the first row of every group, the rows
    staying in the order of the frame. *)
Fixpoint groupby_head1 (seen : list (string * Z * Z * string)) (df : list LoopRow)
    : list LoopRow :=
  match df with
  | [] => []
  | r :: df' =>
      if existsb (group_key_eqb (group_key r)) seen then groupby_head1 seen df'
      else r :: groupby_head1 (group_key r :: seen) df'
  end.

(** Order of [sort_values(by=['phase_loop', 'thread_loop'],
    ascending=False)]: [a] may come before [b]. *)
Definition loops_geb (a b : LoopRow) : bool :=
  (phase_loop b <? phase_loop a)
  || ((phase_loop a =? phase_loop b) && (thread_loop b <=? thread_loop a)).

(** Order of [sort_index()]. *)
Definition Time_leb {R : Type} `{EventTable R} (a b : R) : bool :=
  Time a <=? Time b.

(** Rows of the frame [_get_rtapp_phases] returns: the index is
    [(__comm, __pid, phase)], the only column is [Time]. *)
Record MarkerRow : Type := mkMarkerRow {
  marker_comm : string;
  marker_pid : Z;
  marker_phase : Z;
  marker_Time : Z
}.

Definition marker_of (r : LoopRow) : MarkerRow :=
  mkMarkerRow (__comm r) (__pid r) (phase r) (Time r).

(** The frame pipeline of [_get_rtapp_phases], before the columns are
    projected. *)
Definition rtapp_phases_rows (ev : string) (df : list LoopRow) : list LoopRow :=
  let df := filter (fun r => (event r =? ev)%string) df in
  let df :=
    if (ev =? "start")%string then filter (fun r => phase_loop r =? 0) df
    else if (ev =? "end")%string then stable_sort loops_geb df
    else df in
  let df := groupby_head1 [] df in
  stable_sort Time_leb df.

(** What the selection keeps, in the specification's terms: a group is
    the rows of one [(__comm, __pid, phase)]; the counters of a loop are
    compared as the pair [(phase_loop, thread_loop)]. *)
Definition phase_key (r : LoopRow) : string * Z * Z :=
  (__comm r, __pid r, phase r).

Definition loop_counters_le (a b : LoopRow) : Prop :=
  phase_loop a < phase_loop b
  \/ (phase_loop a = phase_loop b /\ thread_loop a <= thread_loop b).

(** [r] is a ``start`` row of [df] with [phase_loop = 0], and no such row
    of its group comes before it in [df]. *)
Definition first_start_of_group (df : list LoopRow) (r : LoopRow) : Prop :=
  exists before after,
    df = before ++ r :: after
    /\ event r = "start" /\ phase_loop r = 0
    /\ forall r', In r' before ->
                  event r' = "start" -> phase_loop r' = 0 ->
                  phase_key r' <> phase_key r.

(** The decorator [@f.used_events] asks for the events [f] asks for;
    every method below that goes through [df_rtapp_loop] carries it. *)
Definition loop_events : list string := ["rtapp_loop"].

Definition _get_rtapp_phases (trace : Trace) (ev : string) (task : TaskArg)
    : result (list MarkerRow) :=
  requires_events trace loop_events
    (df <- df_rtapp_loop trace task ;;
     ret (map marker_of (rtapp_phases_rows ev df))).

Definition df_rtapp_phases_start (trace : Trace) (task : TaskArg) :=
  requires_events trace loop_events (_get_rtapp_phases trace "start" task).

Definition df_rtapp_phases_end (trace : Trace) (task : TaskArg) :=
  requires_events trace loop_events (_get_rtapp_phases trace "end" task).

(** ** Phase intervals *)

(** Modelled from the spec: [lisa.datautils.df_split_signals] is not in
    the analysed file; for the single column ['phase'] it yields the
    maximal contiguous runs of rows with equal [phase], in time order,
    each with its phase value. *)
Fixpoint df_split_signals (df : list LoopRow) : list (Z * list LoopRow) :=
  match df with
  | [] => []
  | r :: df' =>
      match df_split_signals df' with
      | (p, run) :: runs =>
          if phase r =? p then (p, r :: run) :: runs
          else (phase r, [r]) :: (p, run) :: runs
      | [] => [(phase r, [r])]
      end
  end.

Definition filter_partial_loop (df : list LoopRow) : list LoopRow :=
  let df :=
    match df with
    | r :: df' => if (event r =? "end")%string then df' else df
    | [] => df
    end in
  match df with
  | r :: _ => if (event (last df r) =? "start")%string then removelast df else df
  | [] => df
  end.

(** The dict [{'phase': phase, 'duration': duration}]. *)
Record PhaseDict : Type := mkPhaseDict { dict_phase : Z; dict_duration : Z }.

Definition PhaseDict_eqb (a b : PhaseDict) : bool :=
  (dict_phase a =? dict_phase b) && (dict_duration a =? dict_duration b).

Definition get_duration (phase : Z) (df : list LoopRow) : result (Z * PhaseDict) :=
  start <- iloc (map Time df) 0 ;;
  end_ <- iloc (map Time df) (-1) ;;
  let duration := end_ - start in
  ret (start, mkPhaseDict phase duration).

(** [a < b] on the tuples [(start, dict)]: the first components decide
    when they differ; equal tuples are not less; two dicts cannot be
    ordered. *)
Definition tuple_lt (a b : Z * PhaseDict) : result bool :=
  if fst a =? fst b then
    if PhaseDict_eqb (snd a) (snd b) then ret false else raise TypeError
  else ret (fst a <? fst b).

(** [sorted] on such tuples: a stable insertion sort that only asks
    [<]; it raises as soon as two tuples tie on [start] with different
    dicts.  Any sort that orders by [<] has to compare two such tuples,
    so neither the exception nor the sorted list depends on the
    algorithm. *)
Fixpoint insert_tuple (x : Z * PhaseDict) (l : list (Z * PhaseDict))
    : result (list (Z * PhaseDict)) :=
  match l with
  | [] => ret [x]
  | y :: l' =>
      b <- tuple_lt y x ;;
      if b then (l'' <- insert_tuple x l' ;; ret (y :: l''))
      else ret (x :: l)
  end.

Fixpoint sorted_tuples (l : list (Z * PhaseDict)) : result (list (Z * PhaseDict)) :=
  match l with
  | [] => ret []
  | x :: l' => s <- sorted_tuples l' ;; insert_tuple x s
  end.

(** Rows of the frame [df_phases] returns: the index is the start of
    the phase. *)
Record PhaseRow : Type := mkPhaseRow { Index : Z; row_phase : Z; duration : Z }.

(** A row of [pd.DataFrame(columns, index=index)]. *)
Definition phase_row (d : Z * PhaseDict) : PhaseRow :=
  mkPhaseRow (fst d) (dict_phase (snd d)) (dict_duration (snd d)).

Definition empty {A : Type} (df : list A) : bool :=
  match df with
  | [] => true
  | _ => false
  end.

Definition df_phases (trace : Trace) (task : TaskArg) : result (list PhaseRow) :=
  requires_events trace loop_events
    (loops_df <- df_rtapp_loop trace task ;;
     let phases_df_list :=
       map (fun cols_df => (fst cols_df, filter_partial_loop (snd cols_df)))
           (df_split_signals loops_df) in
     durations <-
       mapM (fun phase_df => get_duration (fst phase_df) (snd phase_df))
            (filter (fun phase_df => negb (empty (snd phase_df))) phases_df_list) ;;
     durations <- sorted_tuples durations ;;
     ret (map phase_row durations)).

(** The specification's wording of the trimming of a run, and of the
    interval a run contributes; compared with the code below. *)
Definition drop_leading_end (run : list LoopRow) : list LoopRow :=
  match run with
  | r :: rest => if (event r =? "end")%string then rest else run
  | [] => []
  end.

Definition drop_trailing_start (run : list LoopRow) : list LoopRow :=
  match rev run with
  | r :: rest => if (event r =? "start")%string then rev rest else run
  | [] => []
  end.

Definition run_interval (run : Z * list LoopRow) : list PhaseRow :=
  match drop_trailing_start (drop_leading_end (snd run)) with
  | [] => []
  | r :: rest => [mkPhaseRow (Time r) (fst run) (Time (last rest r) - Time r)]
  end.

(** No two rows of a phase table tie: rows that start at the same
    instant are one and the same row (same phase, same duration). *)
Definition no_tied_starts (rows : list PhaseRow) : Prop :=
  forall a b, In a rows -> In b rows -> Index a = Index b -> a = b.

(** ** Phase lookup *)

(** [df.loc[comm]] on the frame indexed by [(__comm, __pid, phase)]: the
    rows of that task name, [KeyError] when there is none. *)
Definition loc_comm (df : list MarkerRow) (c : string) : result (list MarkerRow) :=
  match filter (fun m => (marker_comm m =? c)%string) df with
  | [] => raise KeyError
  | sel => ret sel
  end.

Definition _get_task_phase (trace : Trace) (ev : string) (task : TaskArg) (phase : Z)
    : result Z :=
  requires_events trace loop_events
    (task <- get_task_id trace task ;;
     df <- (if (ev =? "start")%string then df_rtapp_phases_start trace (TId task)
            else if (ev =? "end")%string then df_rtapp_phases_end trace (TId task)
            else raise UnboundLocalError) ;;
     let phase :=
       if negb (phase =? 0) && (phase <? 0) then phase + Z.of_nat (length df)
       else phase in
     let phase := phase + 1 in
     sel <- loc_comm df (comm task) ;;
     iloc (map marker_Time (tail1 (head phase sel))) 0).

Definition df_rtapp_phase_start (trace : Trace) (task : TaskArg) (phase : Z) : result Z :=
  requires_events trace loop_events (_get_task_phase trace "start" task phase).

Definition df_rtapp_phase_end (trace : Trace) (task : TaskArg) (phase : Z) : result Z :=
  requires_events trace loop_events (_get_task_phase trace "end" task phase).

(** [Index.is_unique] and [Index.is_monotonic_increasing]. *)
Fixpoint is_unique (index : list Z) : bool :=
  match index with
  | [] => true
  | t :: index' => negb (existsb (Z.eqb t) index') && is_unique index'
  end.

Fixpoint is_monotonic_increasing (index : list Z) : bool :=
  match index with
  | [] => true
  | t :: index' =>
      match index' with
      | [] => true
      | u :: _ => (t <=? u) && is_monotonic_increasing index'
      end
  end.

(** [index.get_loc(key, method='ffill')] of pandas on an increasing
    index: the position of the last label not after [key]; the index has
    to be unique, and a key before every label is a [KeyError].  The
    frames of [df_phases] are sorted by their index ([df_phases_sorted]
    below), so what pandas does on an index that is not increasing is
    never asked for; it is given as the [ValueError] pandas raises on an
    unordered index. *)
Definition get_loc_ffill (index : list Z) (key : Z) : result Z :=
  if negb (is_unique index) then raise InvalidIndexError
  else if negb (is_monotonic_increasing index) then raise ValueError
  else
    match filter (fun t => t <=? key) index with
    | [] => raise KeyError
    | pad => ret (Z.of_nat (length pad) - 1)
    end.

Definition get_info (row : PhaseRow) : Z * Z * Z :=
  let start := Index row in
  let end_ := start + duration row in
  let phase := row_phase row in
  (phase, start, end_).

Definition task_phase_at (trace : Trace) (task : TaskArg) (timestamp : Z)
    : result PhaseWindow :=
  requires_events trace loop_events
    (df <- df_phases trace task ;;
     last_row <- iloc df (-1) ;;
     let '(_, _, last_phase_end) := get_info last_row in
     if timestamp >? last_phase_end then raise ValueError
     else
       i <- get_loc_ffill (map Index df) timestamp ;;
       row <- iloc df i ;;
       let '(phase_id, phase_start, phase_end) := get_info row in
       ret (mkPhaseWindow phase_id phase_start phase_end)).

(** ** Statistics *)

(** The value an [int64] column holds for the integer [z]: pandas does
    the arithmetic between integer columns in [int64], without any
    overflow check, so a result wraps around modulo [2^64]. *)
Definition int64 (z : Z) : Z := (z + 2 ^ 63) mod 2 ^ 64 - 2 ^ 63.

(** Conversion of an integer column to binary64, to nearest even. *)
Definition float_of_Z (z : Z) : float :=
  SF2Prim (binary_normalize prec emax z 0 false).

(** Rows of the frame [_get_stats] returns: the columns of
    ``rtapp_stats`` and the added [perf_index]. *)
Record StatsPerfRow : Type := mkStatsPerfRow {
  stats_columns : StatsRow;
  perf_index : float
}.

#[export] Instance StatsPerfRow_table : EventTable StatsPerfRow :=
  {| Time := fun r => stats_Time (stats_columns r);
     __pid := fun r => stats_pid (stats_columns r);
     __comm := fun r => stats_comm (stats_columns r) |}.

Definition _get_stats (trace : Trace) : result (list StatsPerfRow) :=
  requires_events trace ["rtapp_stats"]
    (df <- df_events (rtapp_stats trace) ;;
     ret (map (fun r =>
                 mkStatsPerfRow r
                   (PrimFloat.div (float_of_Z (slack r))
                                  (float_of_Z (int64 (c_period r - c_run r)))))
              df)).

Definition df_rtapp_stats (trace : Trace) (task : TaskArg) : result (list StatsPerfRow) :=
  requires_events trace ["rtapp_stats"]
    (df <- _get_stats trace ;;
     _task_filtered trace df task).

(** ** Windows of the run, of a task and of a phase *)

Definition rtapp_window (trace : Trace) : result (Z * Z) :=
  requires_events trace ["rtapp_main"]
    (df <- df_rtapp_main trace ;;
     start_time <-
       iloc (map Time (filter (fun r => (main_event r =? "start")%string) df)) 0 ;;
     end_time <-
       iloc (map Time (filter (fun r => (main_event r =? "end")%string) df)) 0 ;;
     ret (start_time, end_time)).

Definition df_rtapp_task (trace : Trace) (task : TaskArg) : result (list TaskRow) :=
  requires_events trace ["rtapp_task"]
    (df <- df_events (rtapp_task trace) ;;
     _task_filtered trace df task).

Definition df_rtapp_event (trace : Trace) (task : TaskArg) : result (list EventRow) :=
  requires_events trace ["rtapp_event"]
    (df <- df_events (rtapp_event trace) ;;
     _task_filtered trace df task).

Definition task_window (trace : Trace) (task : TaskArg) : result (Z * Z) :=
  requires_events trace ["rtapp_task"]
    (task_df <- df_rtapp_task trace task ;;
     start_time <-
       iloc (map Time (filter (fun r => (task_event r =? "start")%string) task_df)) 0 ;;
     end_time <-
       iloc (map Time (filter (fun r => (task_event r =? "end")%string) task_df)) 0 ;;
     ret (start_time, end_time)).

(** [enumerate(df.itertuples())]. *)
Definition enumerate {A : Type} (l : list A) : list (nat * A) :=
  combine (seq 0 (length l)) l.

(** [task_phase_windows] is a generator; the model is the sequence it
    yields when it is run to its end, or the exception that stops it. *)
Definition task_phase_windows (trace : Trace) (task : TaskArg)
    : result (list PhaseWindow) :=
  requires_events trace loop_events
    (df <- df_phases trace task ;;
     ret (map (fun idx_phase =>
                 mkPhaseWindow (Z.of_nat (fst idx_phase))
                               (Index (snd idx_phase))
                               (Index (snd idx_phase) + duration (snd idx_phase)))
              (enumerate df))).

Definition task_phase_window (trace : Trace) (task : TaskArg) (phase : Z)
    : result PhaseWindow :=
  requires_events trace loop_events
    (phase_start <- df_rtapp_phase_start trace task phase ;;
     phase_end <- df_rtapp_phase_end trace task phase ;;
     ret (mkPhaseWindow phase phase_start phase_end)).

(** ** Log-file analysis ([PerfAnalysis])

    The records of an rt-app log file, as [pd.read_csv] names the selected
    columns.  Reading the file is left to [read_csv], given as an
    argument; a dict is the list of its items, in insertion order. *)

Record LogRow : Type := mkLogRow {
  Cycles : Z;
  Run : Z;
  Period : Z;
  Timestamp : Z;
  Slack : Z;
  CRun : Z;
  CPeriod : Z;
  WKPLatency : Z
}.

(** Rows of the frame [_parse_df] returns: the index [Time] and the
    added [PerfIndex]. *)
Record LogPerfRow : Type := mkLogPerfRow {
  log_Time : float;
  log_columns : LogRow;
  PerfIndex : float
}.

(** [df['Timestamp'][0]] on a file without records is an [IndexError];
    the columns are [int64] like those of the trace. *)
Definition _parse_df (read_csv : string -> result (list LogRow)) (logfile : string)
    : result (list LogPerfRow) :=
  df <- read_csv logfile ;;
  start_time <-
    match df with
    | [] => raise IndexError
    | r :: _ => ret (PrimFloat.div (float_of_Z (Timestamp r)) 1000000%float)
    end ;;
  ret (map (fun r =>
              mkLogPerfRow
                (PrimFloat.sub
                   (PrimFloat.div (float_of_Z (Timestamp r)) 1000000%float)
                   start_time)
                r
                (PrimFloat.div (float_of_Z (Slack r))
                               (float_of_Z (int64 (CPeriod r - CRun r)))))
           df).

(** The dict [{'logfile': logfile, 'df': df}]. *)
Record PerfData : Type := mkPerfData {
  logfile : string;
  df : list LogPerfRow
}.

(** [PerfAnalysis.__init__]: the value is [self.perf_data]. *)
Definition PerfAnalysis (read_csv : string -> result (list LogRow))
    (task_log_map : list (string * string)) : result (list (string * PerfData)) :=
  if empty task_log_map then raise ValueError
  else
    mapM (fun item =>
            df <- _parse_df read_csv (snd item) ;;
            ret (fst item, mkPerfData (snd item) df))
         task_log_map.

(** [sorted] on names only asks [<]. *)
Definition name_leb (a b : string) : bool := negb (String.ltb b a).

Definition tasks (perf_data : list (string * PerfData)) : list string :=
  stable_sort name_leb (map fst perf_data).

(** [self.perf_data[task]]. *)
Definition perf_data_getitem (perf_data : list (string * PerfData)) (task : string)
    : result PerfData :=
  match find (fun item => (fst item =? task)%string) perf_data with
  | Some item => ret (snd item)
  | None => raise KeyError
  end.

Definition get_log_file (perf_data : list (string * PerfData)) (task : string)
    : result string :=
  d <- perf_data_getitem perf_data task ;;
  ret (logfile d).

Definition get_df (perf_data : list (string * PerfData)) (task : string)
    : result (list LogPerfRow) :=
  d <- perf_data_getitem perf_data task ;;
  ret (df d).

(** ** Sample traces *)

Definition task0 : TaskID := mkTaskID 100 "task0".

(** A resolver for the sample traces: a [TaskID] resolves to itself, a
    pid or a name to the sample task of that pid or name. *)
Definition sample_get_task_id (task : TaskArg) : result TaskID :=
  match task with
  | TNone => raise ValueError
  | TPid p => ret (mkTaskID p "task0")
  | TName s => ret (mkTaskID 100 s)
  | TId t => ret t
  end.

Definition loop_row (t : Z) (ev : string) (ph pl tl : Z) : LoopRow :=
  mkLoopRow t "task0" 100 ev ph pl tl.

Definition loops_trace (loops : list LoopRow) : Trace :=
  mkTrace None None (Some loops) None None sample_get_task_id.

(** Phase 0 with three complete loops, then phase 1 cut after the start
    of its first loop. *)
Definition truncated_loops : list LoopRow :=
  [ loop_row 10 "start" 0 0 0; loop_row 20 "end" 0 0 0;
    loop_row 30 "start" 0 1 1; loop_row 40 "end" 0 1 1;
    loop_row 50 "start" 0 2 2; loop_row 60 "end" 0 2 2;
    loop_row 70 "start" 1 0 3 ].

(** Two phases of one loop each; the second starts at the instant the
    first ends. *)
Definition two_phase_loops : list LoopRow :=
  [ loop_row 0 "start" 0 0 0; loop_row 10 "end" 0 0 0;
    loop_row 10 "start" 1 0 1; loop_row 25 "end" 1 0 1 ].

(** The two phases of [two_phase_loops] with some delay between them,
    in a table that lists the later phase first. *)
Definition unordered_loops : list LoopRow :=
  [ loop_row 30 "start" 1 0 1; loop_row 45 "end" 1 0 1;
    loop_row 0 "start" 0 0 0; loop_row 10 "end" 0 0 0 ].

(** Two phases whose first rows carry the same timestamp. *)
Definition tied_loops : list LoopRow :=
  [ loop_row 1 "start" 0 0 0; loop_row 1 "end" 0 0 0;
    loop_row 1 "start" 1 0 1; loop_row 2 "end" 1 0 1 ].

(** One phase run twice by the thread: both starts have
    [phase_loop = 0]. *)
Definition repeated_phase_loops : list LoopRow :=
  [ loop_row 1 "start" 0 0 0; loop_row 2 "end" 0 0 0;
    loop_row 3 "start" 0 0 1; loop_row 4 "end" 0 0 1 ].

Definition main_row (t : Z) (ev : string) (d : float) : MainRow :=
  mkMainRow t "rt-app" 99 ev d.

Definition main_trace (rows : list MainRow) : Trace :=
  mkTrace (Some rows) None None None None sample_get_task_id.

Definition one_clock_ref : list MainRow :=
  [ main_row 900 "start" nan; main_row 1000 "clock_ref" 0%float;
    main_row 5000 "end" nan ].

Definition two_clock_refs : list MainRow :=
  [ main_row 900 "start" nan; main_row 1000 "clock_ref" 0%float;
    main_row 2000 "clock_ref" 7%float; main_row 5000 "end" nan ].

Definition stats_trace (rows : list StatsRow) : Trace :=
  mkTrace None None None None (Some rows) sample_get_task_id.



Definition task1 : TaskID := mkTaskID 101 "task1".

Definition tasks_trace (rows : list TaskRow) : Trace :=
  mkTrace None (Some rows) None None None sample_get_task_id.

(** Two tasks; the second starts after and ends before the first. *)
Definition two_task_rows : list TaskRow :=
  [ mkTaskRow 5 "task0" 100 "start"; mkTaskRow 6 "task1" 101 "start";
    mkTaskRow 90 "task1" 101 "end"; mkTaskRow 95 "task0" 100 "end" ].

(** The activations of two tasks, interleaved. *)
Definition two_task_stats : list StatsRow :=
  [ mkStatsRow 1 "task0" 100 5 10 20 3;
    mkStatsRow 2 "task1" 101 1 10 14 2;
    mkStatsRow 3 "task0" 100 (-4) 12 20 2 ].

(** A reader for two log files of one record each; any other file is
    missing. *)
Definition sample_read_csv (logfile : string) : result (list LogRow) :=
  if (logfile =? "rt-app-b-0.log")%string then ret [mkLogRow 1 10 20 5000 5 10 20 3]
  else if (logfile =? "rt-app-a-1.log")%string then ret [mkLogRow 1 12 20 7000 (-4) 12 20 2]
  else raise ValueError.

Definition sample_log_map : list (string * string) :=
  [ ("b", "rt-app-b-0.log"); ("a", "rt-app-a-1.log") ].

(** ** Readings of the specification that the code does not meet

    Each is stated here as the specification words it and refuted below
    on a sample trace. *)

(** Reference time: more than one ``clock_ref`` marker is an error. *)
Definition reftime_rejects_ambiguity : Prop :=
  forall (trace : Trace) (rows : list MainRow),
    rtapp_main trace = Some rows ->
    (1 < length (filter (fun r => (main_event r =? "clock_ref")%string) rows))%nat ->
    exists e, rtapp_reftime trace = inl e.

(** Task filter: a given task that resolves outside the registry is an
    error. *)
Definition task_filter_rejects_unknown : Prop :=
  forall (trace : Trace) (df : list LoopRow) (task : TaskArg) (t : TaskID)
         (tasks : list TaskID),
    task <> TNone ->
    get_task_id trace task = inr t ->
    rtapp_tasks trace = inr tasks ->
    ~ In t tasks ->
    _task_filtered trace df task = inl ValueError.

(** Start markers: every ``start`` row with [phase_loop = 0] is kept. *)
Definition start_markers_keep_all : Prop :=
  forall (trace : Trace) (task : TaskArg) (loops : list LoopRow)
         (markers : list MarkerRow) (r : LoopRow),
    df_rtapp_loop trace task = inr loops ->
    df_rtapp_phases_start trace task = inr markers ->
    In r loops -> event r = "start" -> phase_loop r = 0 ->
    In (marker_of r) markers.

(** Indexed access: a position past the markers is an error. *)
Definition phase_index_rejects_overflow : Prop :=
  forall (trace : Trace) (task : TaskArg) (t : TaskID) (df : list MarkerRow)
         (i : Z),
    get_task_id trace task = inr t ->
    df_rtapp_phases_start trace (TId t) = inr df ->
    Z.of_nat (length df) <= i ->
    exists e, df_rtapp_phase_start trace task i = inl e.


(** * Properties *)

(** ** The error monad *)

Lemma bind_inr {A B : Type} (c : result A) (k : A -> result B) (a : A) :
  c = inr a -> bind c k = k a.
Proof. intros ->. reflexivity. Qed.

Lemma bind_inl {A B : Type} (c : result A) (k : A -> result B) (e : exn) :
  c = inl e -> bind c k = inl e.
Proof. intros ->. reflexivity. Qed.

Lemma bind_inv {A B : Type} (c : result A) (k : A -> result B) (b : B) :
  bind c k = inr b -> exists a, c = inr a /\ k a = inr b.
Proof.
  destruct c as [e | a]; simpl; intros Hk.
  - discriminate.
  - exists a. auto.
Qed.

(** ** Positional access *)

Lemma iloc_unfold {A : Type} (l : list A) (i j : Z) :
  j = (if i <? 0 then i + Z.of_nat (length l) else i) ->
  iloc l i
  = if (j <? 0) || (Z.of_nat (length l) <=? j) then raise IndexError
    else match nth_error l (Z.to_nat j) with
         | Some a => ret a
         | None => raise IndexError
         end.
Proof. intros ->. reflexivity. Qed.

Lemma iloc_nth {A : Type} (l : list A) (i : Z) (d : A) :
  0 <= i < Z.of_nat (length l) ->
  iloc l i = inr (nth (Z.to_nat i) l d).
Proof.
  intros Hi. rewrite (iloc_unfold l i i).
  - replace (i <? 0) with false by (symmetry; apply Z.ltb_ge; lia).
    replace (Z.of_nat (length l) <=? i) with false by (symmetry; apply Z.leb_gt; lia).
    simpl.
    destruct (nth_error l (Z.to_nat i)) as [a |] eqn:Hnth.
    + rewrite (nth_error_nth _ _ d Hnth). reflexivity.
    + apply nth_error_None in Hnth. lia.
  - replace (i <? 0) with false by (symmetry; apply Z.ltb_ge; lia). reflexivity.
Qed.

Lemma iloc_first {A : Type} (a : A) (l : list A) : iloc (a :: l) 0 = inr a.
Proof.
  rewrite (iloc_nth (a :: l) 0 a).
  - reflexivity.
  - simpl length. lia.
Qed.

Lemma iloc_out {A : Type} (l : list A) (i : Z) :
  i < - Z.of_nat (length l) \/ Z.of_nat (length l) <= i ->
  iloc l i = inl IndexError.
Proof.
  intros Hi. destruct (Z.ltb_spec i 0) as [Hneg | Hpos].
  - rewrite (iloc_unfold l i (i + Z.of_nat (length l))).
    + replace (i + Z.of_nat (length l) <? 0) with true
        by (symmetry; apply Z.ltb_lt; lia).
      reflexivity.
    + replace (i <? 0) with true by (symmetry; apply Z.ltb_lt; lia). reflexivity.
  - rewrite (iloc_unfold l i i).
    + replace (Z.of_nat (length l) <=? i) with true
        by (symmetry; apply Z.leb_le; lia).
      rewrite orb_true_r. reflexivity.
    + replace (i <? 0) with false by (symmetry; apply Z.ltb_ge; lia). reflexivity.
Qed.

Lemma iloc_nil {A : Type} (i : Z) : iloc (@nil A) i = inl IndexError.
Proof. apply iloc_out. simpl. lia. Qed.

Lemma iloc_last {A : Type} (l : list A) (a : A) : iloc (l ++ [a]) (-1) = inr a.
Proof.
  rewrite (iloc_unfold _ (-1) (Z.of_nat (length l))).
  - rewrite length_app. simpl length.
    replace (Z.of_nat (length l) <? 0) with false by (symmetry; apply Z.ltb_ge; lia).
    replace (Z.of_nat (length l + 1) <=? Z.of_nat (length l)) with false
      by (symmetry; apply Z.leb_gt; lia).
    simpl. rewrite Nat2Z.id.
    rewrite nth_error_app2 by lia.
    rewrite Nat.sub_diag. reflexivity.
  - rewrite length_app. simpl length.
    replace (-1 <? 0) with true by reflexivity. lia.
Qed.

(** ** Presence of events *)

Lemma has_events_main (trace : Trace) (rows : list MainRow) :
  rtapp_main trace = Some rows -> has_events trace "rtapp_main" = true.
Proof. intros H. unfold has_events, df_events_tasks. simpl. rewrite H. reflexivity. Qed.

Lemma has_events_loop (trace : Trace) (rows : list LoopRow) :
  rtapp_loop trace = Some rows -> has_events trace "rtapp_loop" = true.
Proof. intros H. unfold has_events, df_events_tasks. simpl. rewrite H. reflexivity. Qed.

Lemma has_events_stats (trace : Trace) (rows : list StatsRow) :
  rtapp_stats trace = Some rows -> has_events trace "rtapp_stats" = true.
Proof. intros H. unfold has_events, df_events_tasks. simpl. rewrite H. reflexivity. Qed.

Lemma requires_events_inv {A : Type} (trace : Trace) (evs : list string)
    (body : result A) (a : A) :
  requires_events trace evs body = inr a ->
  forallb (has_events trace) evs = true /\ body = inr a.
Proof.
  unfold requires_events. destruct (forallb (has_events trace) evs).
  - auto.
  - discriminate.
Qed.

Lemma requires_events_ok {A : Type} (trace : Trace) (evs : list string)
    (body : result A) :
  forallb (has_events trace) evs = true -> requires_events trace evs body = body.
Proof. intros H. unfold requires_events. rewrite H. reflexivity. Qed.

Lemma df_rtapp_loop_events (trace : Trace) (task : TaskArg) (loops : list LoopRow) :
  df_rtapp_loop trace task = inr loops ->
  forallb (has_events trace) loop_events = true.
Proof.
  unfold df_rtapp_loop. intros Hloops.
  apply requires_events_inv in Hloops. tauto.
Qed.

Lemma TaskID_eqb_eq (a b : TaskID) : TaskID_eqb a b = true <-> a = b.
Proof.
  unfold TaskID_eqb. rewrite andb_true_iff, Z.eqb_eq, String.eqb_eq.
  destruct a, b; simpl. split.
  - intros [-> ->]. reflexivity.
  - intros H. inversion H. auto.
Qed.

Lemma existsb_TaskID (t : TaskID) (l : list TaskID) :
  existsb (TaskID_eqb t) l = true <-> In t l.
Proof.
  rewrite existsb_exists. split.
  - intros [u [Hin Heq]]. apply TaskID_eqb_eq in Heq. subst. assumption.
  - intros Hin. exists t. split; [assumption | apply TaskID_eqb_eq; reflexivity].
Qed.

(** ** Task event filter *)

Lemma df_filter_task_ids_one {R : Type} `{EventTable R} (df : list R) (t : TaskID) :
  df_filter_task_ids df [t]
  = filter (fun r => (__pid r =? pid t) && (__comm r =? comm t)%string) df.
Proof.
  unfold df_filter_task_ids. apply filter_ext. intros r. simpl.
  rewrite orb_false_r. reflexivity.
Qed.

(** C10: a falsy task that was given, the pid [0] or the empty name, is
    treated as an omitted task: the table comes back unchanged, the
    resolver and the registry are not consulted and nothing is raised. *)
Theorem task_filtered_falsy :
  forall (R : Type) (H : EventTable R) (trace : Trace) (df : list R),
    _task_filtered trace df (TPid 0) = inr df
    /\ _task_filtered trace df (TName "") = inr df
    /\ _task_filtered trace df (TPid 0) = _task_filtered trace df TNone
    /\ _task_filtered trace df (TName "") = _task_filtered trace df TNone.
Proof.
  intros R H trace df. repeat split; reflexivity.
Qed.

(** C9, as the code has it: with the task omitted the table comes back
    unchanged; with a truthy task that resolves outside the registry the
    filter raises [ValueError]; with one that resolves inside it the
    result is the rows of that (pid, name), in their original order. *)
Theorem task_filtered_spec :
  forall (R : Type) (H : EventTable R) (trace : Trace) (df : list R)
         (task : TaskArg) (t : TaskID) (tasks : list TaskID),
    truthy task = true ->
    get_task_id trace task = inr t ->
    rtapp_tasks trace = inr tasks ->
    _task_filtered trace df TNone = inr df
    /\ (~ In t tasks -> _task_filtered trace df task = inl ValueError)
    /\ (In t tasks ->
        _task_filtered trace df task
        = inr (filter (fun r => (__pid r =? pid t) && (__comm r =? comm t)%string) df)).
Proof.
  intros R H trace df task t tasks Htruthy Hres Hreg.
  split; [reflexivity |].
  unfold _task_filtered. rewrite Htruthy, Hres, Hreg. simpl.
  split; intros Hin.
  - destruct (existsb (TaskID_eqb t) tasks) eqn:Hex.
    + apply existsb_TaskID in Hex. contradiction.
    + reflexivity.
  - apply existsb_TaskID in Hin. rewrite Hin. simpl.
    rewrite df_filter_task_ids_one. reflexivity.
Qed.

(** ** Reference time *)

Lemma requires_events_one {A : Type} (trace : Trace) (ev : string) (body : result A) :
  has_events trace ev = true -> requires_events trace [ev] body = body.
Proof. intros H. unfold requires_events. simpl. rewrite H. reflexivity. Qed.

(** C3, as the code has it: when the main-thread table holds at least one
    ``clock_ref`` event, [rtapp_reftime] returns the trace-clock instant
    and the payload of the first of them; it does not look for a second
    one.  With exactly one such event ([rest = []]) this is that event. *)
Theorem rtapp_reftime_first :
  forall (trace : Trace) (rows : list MainRow) (r : MainRow) (rest : list MainRow),
    rtapp_main trace = Some rows ->
    filter (fun r => (main_event r =? "clock_ref")%string) rows = r :: rest ->
    rtapp_reftime trace = inr (mkRefTime (Time r) (main_data r)).
Proof.
  intros trace rows r rest Hrows Hmarkers.
  unfold rtapp_reftime, df_rtapp_main.
  rewrite !(requires_events_one trace "rtapp_main") by (eapply has_events_main; eauto).
  rewrite Hrows. simpl. rewrite Hmarkers. simpl map.
  rewrite !iloc_first. reflexivity.
Qed.

(** ** Statistics *)


Lemma int64_range (z : Z) : - 2 ^ 63 <= int64 z < 2 ^ 63.
Proof.
  unfold int64.
  pose proof (Z.mod_pos_bound (z + 2 ^ 63) (2 ^ 64) ltac:(lia)). lia.
Qed.


(** ** Sorting *)

Section StableSortFacts.
Context {A : Type} (leb : A -> A -> bool).

Lemma insert_sorted_perm (x : A) (l : list A) :
  Permutation (x :: l) (insert_sorted leb x l).
Proof.
  induction l as [| y l IH]; simpl.
  - apply Permutation_refl.
  - destruct (leb x y).
    + apply Permutation_refl.
    + apply perm_trans with (y :: x :: l).
      * apply perm_swap.
      * apply perm_skip. exact IH.
Qed.

Lemma stable_sort_perm (l : list A) : Permutation l (stable_sort leb l).
Proof.
  induction l as [| x l IH]; simpl.
  - apply perm_nil.
  - apply perm_trans with (x :: stable_sort leb l).
    + apply perm_skip. exact IH.
    + apply insert_sorted_perm.
Qed.

Lemma stable_sort_In (l : list A) (a : A) : In a (stable_sort leb l) <-> In a l.
Proof.
  split; intros Hin.
  - eapply Permutation_in; [apply Permutation_sym, stable_sort_perm | exact Hin].
  - eapply Permutation_in; [apply stable_sort_perm | exact Hin].
Qed.

Hypothesis leb_total : forall a b, leb a b = true \/ leb b a = true.
Hypothesis leb_trans : forall a b c, leb a b = true -> leb b c = true -> leb a c = true.

Lemma insert_sorted_ok (x : A) (l : list A) :
  StronglySorted (le_of leb) l -> StronglySorted (le_of leb) (insert_sorted leb x l).
Proof.
  induction 1 as [| y l Hsorted IH Hall]; simpl.
  - constructor; constructor.
  - destruct (leb x y) eqn:Hxy.
    + constructor.
      * constructor; assumption.
      * constructor; [exact Hxy |].
        eapply Forall_impl; [| exact Hall].
        intros z Hyz. unfold le_of in *. eapply leb_trans; eauto.
    + constructor; [exact IH |].
      rewrite Forall_forall. intros z Hz.
      apply (Permutation_in _ (Permutation_sym (insert_sorted_perm x l))) in Hz.
      destruct Hz as [<- | Hz].
      * destruct (leb_total x y) as [Habs | Hyx]; [congruence | exact Hyx].
      * rewrite Forall_forall in Hall. apply Hall. exact Hz.
Qed.

Lemma stable_sort_sorted (l : list A) :
  StronglySorted (le_of leb) (stable_sort leb l).
Proof.
  induction l as [| x l IH]; simpl.
  - constructor.
  - apply insert_sorted_ok. exact IH.
Qed.
End StableSortFacts.

(** A sorted list without repetition is strictly sorted. *)
Lemma StronglySorted_strict {A : Type} (le lt : A -> A -> Prop) (l : list A) :
  (forall a b, le a b -> a <> b -> lt a b) ->
  NoDup l -> StronglySorted le l -> StronglySorted lt l.
Proof.
  intros Hstrict Hnodup Hsorted.
  induction Hsorted as [| a l Hsorted IH Hall].
  - constructor.
  - inversion Hnodup as [| a' l' Hnotin Hnodup']; subst.
    constructor.
    + apply IH. exact Hnodup'.
    + rewrite Forall_forall in *. intros b Hb.
      apply Hstrict.
      * apply Hall. exact Hb.
      * intros ->. contradiction.
Qed.

(** ** The order on task identities *)

Lemma ascii_compare_lt_trans (a b c : ascii) :
  Ascii.compare a b = Lt -> Ascii.compare b c = Lt -> Ascii.compare a c = Lt.
Proof.
  unfold Ascii.compare. rewrite !N.compare_lt_iff. lia.
Qed.

Lemma string_compare_refl (s : string) : String.compare s s = Eq.
Proof.
  induction s as [| a s IH]; simpl.
  - reflexivity.
  - unfold Ascii.compare. rewrite N.compare_refl. exact IH.
Qed.

Lemma string_compare_lt_trans (s1 s2 s3 : string) :
  String.compare s1 s2 = Lt -> String.compare s2 s3 = Lt ->
  String.compare s1 s3 = Lt.
Proof.
  revert s2 s3.
  induction s1 as [| a s1 IH]; intros [| b s2] [| c s3]; simpl;
    try discriminate; try reflexivity.
  destruct (Ascii.compare a b) eqn:Hab; try discriminate;
    destruct (Ascii.compare b c) eqn:Hbc; try discriminate; intros H12 H23.
  - apply Ascii.compare_eq_iff in Hab, Hbc. subst.
    unfold Ascii.compare. rewrite N.compare_refl. eapply IH; eauto.
  - apply Ascii.compare_eq_iff in Hab. subst. rewrite Hbc. reflexivity.
  - apply Ascii.compare_eq_iff in Hbc. subst. rewrite Hab. reflexivity.
  - rewrite (ascii_compare_lt_trans a b c Hab Hbc). reflexivity.
Qed.

Lemma string_ltb_irrefl (s : string) : String.ltb s s = false.
Proof. unfold String.ltb. rewrite string_compare_refl. reflexivity. Qed.

Lemma string_ltb_trans (s1 s2 s3 : string) :
  String.ltb s1 s2 = true -> String.ltb s2 s3 = true -> String.ltb s1 s3 = true.
Proof.
  unfold String.ltb.
  destruct (String.compare s1 s2) eqn:H12; try discriminate.
  destruct (String.compare s2 s3) eqn:H23; try discriminate.
  rewrite (string_compare_lt_trans _ _ _ H12 H23). reflexivity.
Qed.

Lemma string_ltb_total (s1 s2 : string) :
  s1 <> s2 -> String.ltb s1 s2 = true \/ String.ltb s2 s1 = true.
Proof.
  intros Hneq. unfold String.ltb.
  rewrite (String.compare_antisym s2 s1).
  destruct (String.compare s1 s2) eqn:H12; simpl; auto.
  apply String.compare_eq_iff in H12. contradiction.
Qed.

Lemma TaskID_ltb_lt (a b : TaskID) : TaskID_ltb a b = true <-> TaskID_lt a b.
Proof.
  unfold TaskID_ltb, TaskID_lt.
  rewrite orb_true_iff, andb_true_iff, Z.ltb_lt, Z.eqb_eq. reflexivity.
Qed.

Lemma TaskID_lt_irrefl (a : TaskID) : ~ TaskID_lt a a.
Proof.
  intros [Hlt | [_ Hlt]].
  - lia.
  - rewrite string_ltb_irrefl in Hlt. discriminate.
Qed.

Lemma TaskID_lt_trans (a b c : TaskID) :
  TaskID_lt a b -> TaskID_lt b c -> TaskID_lt a c.
Proof.
  intros [Hab | [Hab Sab]] [Hbc | [Hbc Sbc]]; unfold TaskID_lt.
  - left. lia.
  - left. lia.
  - left. lia.
  - right. split; [lia | eapply string_ltb_trans; eauto].
Qed.

Lemma TaskID_lt_total (a b : TaskID) : a <> b -> TaskID_lt a b \/ TaskID_lt b a.
Proof.
  intros Hneq. unfold TaskID_lt.
  destruct (Z.lt_trichotomy (pid a) (pid b)) as [Hlt | [Heq | Hgt]]; auto.
  destruct (string_dec (comm a) (comm b)) as [Hc | Hc].
  - exfalso. apply Hneq. destruct a, b; simpl in *. subst. reflexivity.
  - destruct (string_ltb_total _ _ Hc); auto.
Qed.

Lemma TaskID_leb_spec (a b : TaskID) : TaskID_leb a b = true <-> a = b \/ TaskID_lt a b.
Proof.
  unfold TaskID_leb. rewrite negb_true_iff. split.
  - intros Hnlt.
    destruct (TaskID_eqb a b) eqn:Heq.
    + left. apply TaskID_eqb_eq. exact Heq.
    + right. destruct (TaskID_lt_total a b) as [Hlt | Hgt].
      * intros ->. rewrite (proj2 (TaskID_eqb_eq b b) eq_refl) in Heq. discriminate.
      * exact Hlt.
      * apply TaskID_ltb_lt in Hgt. congruence.
  - intros [-> | Hlt].
    + destruct (TaskID_ltb b b) eqn:Hbb; [| reflexivity].
      apply TaskID_ltb_lt in Hbb. exfalso. eapply TaskID_lt_irrefl; eauto.
    + destruct (TaskID_ltb b a) eqn:Hba; [| reflexivity].
      apply TaskID_ltb_lt in Hba. exfalso.
      eapply TaskID_lt_irrefl. eapply TaskID_lt_trans; eauto.
Qed.

Lemma TaskID_leb_total (a b : TaskID) : TaskID_leb a b = true \/ TaskID_leb b a = true.
Proof.
  rewrite !TaskID_leb_spec.
  destruct (TaskID_eqb a b) eqn:Heq.
  - apply TaskID_eqb_eq in Heq. auto.
  - destruct (TaskID_lt_total a b) as [Hlt | Hgt]; auto.
    intros ->. rewrite (proj2 (TaskID_eqb_eq b b) eq_refl) in Heq. discriminate.
Qed.

Lemma TaskID_leb_trans (a b c : TaskID) :
  TaskID_leb a b = true -> TaskID_leb b c = true -> TaskID_leb a c = true.
Proof.
  rewrite !TaskID_leb_spec.
  intros [-> | Hab] [-> | Hbc]; auto.
  right. eapply TaskID_lt_trans; eauto.
Qed.

(** ** Task registry *)

Lemma set_add_In (t u : TaskID) (s : list TaskID) :
  In t (set_add u s) <-> t = u \/ In t s.
Proof.
  unfold set_add. destruct (existsb (TaskID_eqb u) s) eqn:Hex.
  - apply existsb_TaskID in Hex. split; [auto |].
    intros [-> | Hin]; assumption.
  - rewrite in_app_iff. simpl. split.
    + intros [Hin | [<- | []]]; auto.
    + intros [-> | Hin]; auto.
Qed.

Lemma set_add_NoDup (u : TaskID) (s : list TaskID) : NoDup s -> NoDup (set_add u s).
Proof.
  intros Hs. unfold set_add. destruct (existsb (TaskID_eqb u) s) eqn:Hex.
  - exact Hs.
  - apply (Permutation_NoDup (Permutation_cons_append s u)).
    constructor; [| exact Hs].
    intros Hin. apply existsb_TaskID in Hin. congruence.
Qed.

Lemma fold_set_add_In (l s : list TaskID) (t : TaskID) :
  In t (fold_left (fun s t => set_add t s) l s) <-> In t s \/ In t l.
Proof.
  revert s. induction l as [| u l IH]; intros s; simpl.
  - tauto.
  - rewrite IH, set_add_In. intuition congruence.
Qed.

Lemma fold_set_add_NoDup (l s : list TaskID) :
  NoDup s -> NoDup (fold_left (fun s t => set_add t s) l s).
Proof.
  revert s. induction l as [| u l IH]; intros s Hs; simpl.
  - exact Hs.
  - apply IH. apply set_add_NoDup. exact Hs.
Qed.

Lemma drop_duplicates_In (l : list TaskID) (t : TaskID) :
  In t (drop_duplicates l) <-> In t l.
Proof.
  induction l as [| u l IH]; simpl.
  - tauto.
  - rewrite filter_In, IH, negb_true_iff. split.
    + intros [-> | [Hin _]]; auto.
    + intros [-> | Hin]; auto.
      destruct (TaskID_eqb u t) eqn:Heq.
      * apply TaskID_eqb_eq in Heq. auto.
      * auto.
Qed.

Lemma add_event_tasks_In (trace : Trace) (evs : list string) (acc : list TaskID)
    (t : TaskID) :
  In t (fold_left (add_event_tasks trace) evs acc)
  <-> In t acc
      \/ exists ev df, In ev evs /\ df_events_tasks trace ev = inr df /\ In t df.
Proof.
  revert acc. induction evs as [| ev evs IH]; intros acc; simpl.
  - split; [auto |]. intros [Hin | [ev [df [[] _]]]]. exact Hin.
  - rewrite IH. unfold add_event_tasks at 1.
    destruct (df_events_tasks trace ev) as [e | df] eqn:Hev.
    + split.
      * intros [Hin | [ev' [df' [Hin' H']]]]; [auto |].
        right. exists ev', df'. tauto.
      * intros [Hin | [ev' [df' [[<- | Hin'] [Hdf' Ht]]]]]; [auto | congruence |].
        right. exists ev', df'. tauto.
    + rewrite fold_set_add_In, drop_duplicates_In. split.
      * intros [[Hin | Hin] | [ev' [df' [Hin' H']]]]; [auto | |].
        -- right. exists ev, df. tauto.
        -- right. exists ev', df'. tauto.
      * intros [Hin | [ev' [df' [[<- | Hin'] [Hdf' Ht]]]]]; [auto | |].
        -- left. right. congruence.
        -- right. exists ev', df'. tauto.
Qed.

Lemma add_event_tasks_NoDup (trace : Trace) (evs : list string) (acc : list TaskID) :
  NoDup acc -> NoDup (fold_left (add_event_tasks trace) evs acc).
Proof.
  revert acc. induction evs as [| ev evs IH]; intros acc Hacc; simpl.
  - exact Hacc.
  - apply IH. unfold add_event_tasks.
    destruct (df_events_tasks trace ev); [exact Hacc |].
    apply fold_set_add_NoDup. exact Hacc.
Qed.

Lemma has_events_iff (trace : Trace) (ev : string) :
  has_events trace ev = true <-> exists df, df_events_tasks trace ev = inr df.
Proof.
  unfold has_events. destruct (df_events_tasks trace ev) as [e | df].
  - split; [discriminate | intros [df Hdf]; discriminate].
  - split; [eauto | reflexivity].
Qed.

(** C7: [rtapp_tasks] fails with [MissingTraceEventError] when none of the
    rt-app events is in the trace, and only then; otherwise it returns
    the (pid, name) pairs found in the events that are present, each
    once, in increasing order of (pid, name). *)
Theorem rtapp_tasks_spec :
  forall (trace : Trace),
    ((forall ev, In ev RTAPP_USERSPACE_EVENTS ->
                 exists e, df_events_tasks trace ev = inl e) ->
     rtapp_tasks trace = inl MissingTraceEventError)
    /\ ((exists ev df, In ev RTAPP_USERSPACE_EVENTS
                       /\ df_events_tasks trace ev = inr df) ->
        exists tasks,
          rtapp_tasks trace = inr tasks
          /\ StronglySorted TaskID_lt tasks
          /\ forall t, In t tasks <->
                       exists ev df, In ev RTAPP_USERSPACE_EVENTS
                                     /\ df_events_tasks trace ev = inr df
                                     /\ In t df).
Proof.
  intros trace. unfold rtapp_tasks, requires_one_event_of. split.
  - intros Hnone.
    destruct (existsb (has_events trace) RTAPP_USERSPACE_EVENTS) eqn:Hex; [| reflexivity].
    apply existsb_exists in Hex. destruct Hex as [ev [Hin Hev]].
    apply has_events_iff in Hev. destruct Hev as [df Hdf].
    destruct (Hnone ev Hin) as [e He]. congruence.
  - intros [ev [df [Hin Hdf]]].
    replace (existsb (has_events trace) RTAPP_USERSPACE_EVENTS) with true.
    + eexists. split; [reflexivity |]. split.
      * apply StronglySorted_strict with (le := le_of TaskID_leb).
        -- intros a b Hle Hneq. apply TaskID_leb_spec in Hle.
           destruct Hle as [-> | Hlt]; [contradiction | exact Hlt].
        -- eapply Permutation_NoDup; [apply stable_sort_perm |].
           apply add_event_tasks_NoDup. constructor.
        -- apply stable_sort_sorted.
           ++ apply TaskID_leb_total.
           ++ apply TaskID_leb_trans.
      * intros t. rewrite stable_sort_In, add_event_tasks_In. simpl In at 1. tauto.
    + symmetry. apply existsb_exists. exists ev. split; [exact Hin |].
      apply has_events_iff. eauto.
Qed.

(** ** Rows of one task *)

Lemma groupby_head1_In (seen : list (string * Z * Z * string)) (df : list LoopRow)
    (r : LoopRow) :
  In r (groupby_head1 seen df) -> In r df.
Proof.
  revert seen. induction df as [| a df IH]; intros seen; simpl.
  - auto.
  - destruct (existsb (group_key_eqb (group_key a)) seen).
    + intros Hin. right. eapply IH; eauto.
    + intros [-> | Hin]; [auto | right; eapply IH; eauto].
Qed.

Lemma rtapp_phases_rows_In (ev : string) (df : list LoopRow) (r : LoopRow) :
  In r (rtapp_phases_rows ev df) -> In r df /\ event r = ev.
Proof.
  unfold rtapp_phases_rows. intros Hin.
  apply stable_sort_In in Hin. apply groupby_head1_In in Hin.
  assert (Hsel : In r (filter (fun r => (event r =? ev)%string) df)).
  { destruct (ev =? "start")%string.
    - apply filter_In in Hin. tauto.
    - destruct (ev =? "end")%string.
      + apply stable_sort_In in Hin. exact Hin.
      + exact Hin. }
  apply filter_In in Hsel. destruct Hsel as [Hdf Hev].
  apply String.eqb_eq in Hev. auto.
Qed.

Lemma task_filtered_rows {R : Type} `{EventTable R} (trace : Trace) (df out : list R)
    (t : TaskID) :
  get_task_id trace (TId t) = inr t ->
  _task_filtered trace df (TId t) = inr out ->
  out = filter (fun r => (__pid r =? pid t) && (__comm r =? comm t)%string) df.
Proof.
  intros Hres. unfold _task_filtered. simpl. rewrite Hres. simpl.
  destruct (rtapp_tasks trace) as [e | tasks]; simpl; [discriminate |].
  destruct (existsb (TaskID_eqb t) tasks); simpl; [| discriminate].
  rewrite df_filter_task_ids_one. intros Hout. inversion Hout. reflexivity.
Qed.

Lemma df_rtapp_loop_rows (trace : Trace) (t : TaskID) (loops : list LoopRow) :
  get_task_id trace (TId t) = inr t ->
  df_rtapp_loop trace (TId t) = inr loops ->
  forall r, In r loops -> __comm r = comm t.
Proof.
  intros Hres. unfold df_rtapp_loop, requires_events.
  destruct (forallb (has_events trace) ["rtapp_loop"]); [| discriminate].
  destruct (df_events (rtapp_loop trace)) as [e | df]; simpl; [discriminate |].
  intros Hout r Hin.
  rewrite (task_filtered_rows trace df loops t Hres Hout) in Hin.
  apply filter_In in Hin. destruct Hin as [_ Hmatch].
  apply andb_true_iff in Hmatch. destruct Hmatch as [_ Hcomm].
  apply String.eqb_eq in Hcomm. exact Hcomm.
Qed.

Lemma get_rtapp_phases_rows (trace : Trace) (ev : string) (t : TaskID)
    (df : list MarkerRow) :
  get_task_id trace (TId t) = inr t ->
  _get_rtapp_phases trace ev (TId t) = inr df ->
  forall m, In m df -> marker_comm m = comm t.
Proof.
  intros Hres Hout. unfold _get_rtapp_phases in Hout.
  apply requires_events_inv in Hout. destruct Hout as [_ Hout]. revert Hout.
  destruct (df_rtapp_loop trace (TId t)) as [e | loops] eqn:Hloops; simpl;
    [discriminate |].
  intros Hout m Hin. inversion Hout; subst. clear Hout.
  apply in_map_iff in Hin. destruct Hin as [r [<- Hr]].
  apply rtapp_phases_rows_In in Hr. destruct Hr as [Hr _].
  simpl. eapply df_rtapp_loop_rows; eauto.
Qed.

Lemma loc_comm_all (df : list MarkerRow) (c : string) :
  (forall m, In m df -> marker_comm m = c) ->
  loc_comm df c = match df with
                  | [] => inl KeyError
                  | _ => inr df
                  end.
Proof.
  intros Hall. unfold loc_comm.
  replace (filter (fun m => (marker_comm m =? c)%string) df) with df.
  - destruct df; reflexivity.
  - symmetry. apply forallb_filter_id. apply forallb_forall.
    intros m Hm. apply String.eqb_eq. apply Hall. exact Hm.
Qed.

(** ** Indexed access *)

Lemma skipn_firstn_succ {A : Type} (l : list A) (j : nat) (d : A) :
  (j < length l)%nat -> skipn j (firstn (S j) l) = [nth j l d].
Proof.
  revert l. induction j as [| j IH]; intros [| a l] Hj; simpl in Hj; try lia.
  - reflexivity.
  - change (skipn j (firstn (S j) l) = [nth j l d]). apply IH. lia.
Qed.

Lemma tail1_firstn {A : Type} (l : list A) (k j : nat) (d : A) :
  Nat.min k (length l) = S j -> tail1 (firstn k l) = [nth j l d].
Proof.
  intros Hk. unfold tail1. rewrite length_firstn, Hk.
  replace (S j - 1)%nat with j by lia.
  destruct (Nat.le_gt_cases k (length l)) as [Hle | Hgt].
  - replace k with (S j) by lia. apply skipn_firstn_succ. lia.
  - rewrite firstn_all2 by lia.
    rewrite <- (firstn_all l) at 1. replace (length l) with (S j) by lia.
    apply skipn_firstn_succ. lia.
Qed.

Lemma tail1_firstn_nil {A : Type} (l : list A) (k : nat) :
  Nat.min k (length l) = 0%nat -> tail1 (firstn k l) = [].
Proof.
  intros Hk. unfold tail1. rewrite length_firstn, Hk. simpl.
  destruct (firstn k l) eqn:Hf; [reflexivity |].
  apply (f_equal (@length A)) in Hf. rewrite length_firstn, Hk in Hf. discriminate.
Qed.

Lemma head_count {A : Type} (n : Z) (l : list A) :
  head n l
  = firstn (if 0 <=? n then Z.to_nat n else Z.to_nat (Z.of_nat (length l) + n)) l.
Proof. unfold head. destruct (0 <=? n); reflexivity. Qed.

(** The timestamp [head(n).tail(1).Time.iloc[0]] reads. *)
Lemma head_tail_Time (df : list MarkerRow) (n j : Z) :
  0 <= j < Z.of_nat (length df) ->
  (1 <= n /\ j = Z.min n (Z.of_nat (length df)) - 1)
  \/ (n < 0 /\ j = Z.of_nat (length df) + n - 1) ->
  iloc (map marker_Time (tail1 (head n df))) 0
  = inr (nth (Z.to_nat j) (map marker_Time df) 0).
Proof.
  intros Hj Hn. rewrite head_count.
  set (d := mkMarkerRow "" 0 0 0).
  rewrite (tail1_firstn df _ (Z.to_nat j) d).
  - simpl map. rewrite iloc_first.
    f_equal. symmetry. exact (map_nth marker_Time df d (Z.to_nat j)).
  - destruct Hn as [[Hpos Hjn] | [Hneg Hjn]].
    + replace (0 <=? n) with true by (symmetry; apply Z.leb_le; lia). lia.
    + replace (0 <=? n) with false by (symmetry; apply Z.leb_gt; lia). lia.
Qed.

Lemma head_tail_Time_none (df : list MarkerRow) (n : Z) :
  n = 0 \/ (n < 0 /\ Z.of_nat (length df) + n <= 0) ->
  iloc (map marker_Time (tail1 (head n df))) 0 = inl IndexError.
Proof.
  intros Hn. rewrite head_count. rewrite tail1_firstn_nil.
  - apply iloc_nil.
  - destruct Hn as [-> | [Hneg Hle]].
    + reflexivity.
    + replace (0 <=? n) with false by (symmetry; apply Z.leb_gt; lia). lia.
Qed.

(** [_get_task_phase] once the task is resolved and its markers are
    fetched. *)
Lemma get_task_phase_unfold (trace : Trace) (ev : string) (task : TaskArg)
    (t : TaskID) (df : list MarkerRow) (i : Z) :
  ev = "start" \/ ev = "end" ->
  get_task_id trace task = inr t ->
  get_task_id trace (TId t) = inr t ->
  _get_rtapp_phases trace ev (TId t) = inr df ->
  _get_task_phase trace ev task i
  = match df with
    | [] => inl KeyError
    | _ =>
        iloc (map marker_Time
                (tail1 (head ((if negb (i =? 0) && (i <? 0)
                               then i + Z.of_nat (length df) else i) + 1) df))) 0
    end.
Proof.
  intros Hev Htask Hres Hdf.
  destruct (requires_events_inv _ _ _ _ Hdf) as [Hevents _].
  unfold _get_task_phase. rewrite (requires_events_ok _ _ _ Hevents).
  rewrite Htask. simpl.
  unfold df_rtapp_phases_start, df_rtapp_phases_end.
  rewrite !(requires_events_ok trace loop_events) by exact Hevents.
  assert (Hsel :
    (if (ev =? "start")%string then _get_rtapp_phases trace "start" (TId t)
     else if (ev =? "end")%string then _get_rtapp_phases trace "end" (TId t)
          else raise UnboundLocalError) = inr df).
  { destruct Hev as [-> | ->]; simpl; exact Hdf. }
  rewrite Hsel. simpl.
  rewrite (loc_comm_all df (comm t)) by (eapply get_rtapp_phases_rows; eauto).
  destruct df; reflexivity.
Qed.

Lemma resolved_phase (i n : Z) :
  (if negb (i =? 0) && (i <? 0) then i + n else i) = (if i <? 0 then i + n else i).
Proof.
  destruct (Z.ltb_spec i 0) as [Hneg | Hpos].
  - replace (i =? 0) with false by (symmetry; apply Z.eqb_neq; lia). reflexivity.
  - rewrite andb_false_r. reflexivity.
Qed.

Lemma get_task_phase_at (trace : Trace) (ev : string) (task : TaskArg)
    (t : TaskID) (df : list MarkerRow) (i j : Z) :
  ev = "start" \/ ev = "end" ->
  get_task_id trace task = inr t ->
  get_task_id trace (TId t) = inr t ->
  _get_rtapp_phases trace ev (TId t) = inr df ->
  0 <= j < Z.of_nat (length df) ->
  (0 <= i /\ j = Z.min (i + 1) (Z.of_nat (length df)) - 1)
  \/ (i < 0 /\ 1 <= i + Z.of_nat (length df) + 1
      /\ j = Z.min (i + Z.of_nat (length df) + 1) (Z.of_nat (length df)) - 1)
  \/ (i < 0 /\ i + Z.of_nat (length df) + 1 < 0
      /\ j = 2 * Z.of_nat (length df) + i) ->
  _get_task_phase trace ev task i = inr (nth (Z.to_nat j) (map marker_Time df) 0).
Proof.
  intros Hev Htask Hres Hdf Hj Hcase.
  rewrite (get_task_phase_unfold trace ev task t df i Hev Htask Hres Hdf).
  rewrite resolved_phase.
  destruct df as [| m df]; [simpl in Hj; lia |].
  apply head_tail_Time; [exact Hj |].
  destruct Hcase as [[Hi ->] | [[Hi [Hpos ->]] | [Hi [Hneg ->]]]].
  - replace (i <? 0) with false by (symmetry; apply Z.ltb_ge; lia). left. lia.
  - replace (i <? 0) with true by (symmetry; apply Z.ltb_lt; lia). left. lia.
  - replace (i <? 0) with true by (symmetry; apply Z.ltb_lt; lia). right. lia.
Qed.

Lemma get_task_phase_none (trace : Trace) (ev : string) (task : TaskArg)
    (t : TaskID) (df : list MarkerRow) (i : Z) :
  ev = "start" \/ ev = "end" ->
  get_task_id trace task = inr t ->
  get_task_id trace (TId t) = inr t ->
  _get_rtapp_phases trace ev (TId t) = inr df ->
  0 < Z.of_nat (length df) ->
  i = - Z.of_nat (length df) - 1 \/ i < - 2 * Z.of_nat (length df) ->
  _get_task_phase trace ev task i = inl IndexError.
Proof.
  intros Hev Htask Hres Hdf Hlen Hcase.
  rewrite (get_task_phase_unfold trace ev task t df i Hev Htask Hres Hdf).
  rewrite resolved_phase.
  destruct df as [| m df]; [simpl in Hlen; lia |].
  replace (i <? 0) with true by (symmetry; apply Z.ltb_lt; lia).
  apply head_tail_Time_none. lia.
Qed.

(** C5, as the code has it: with [N >= 1] markers of the task,
    [_get_task_phase] (behind [df_rtapp_phase_start] and
    [df_rtapp_phase_end]) reads the marker at [i] for [0 <= i < N] and at
    [N + i] for [-N <= i < 0]; an index [i >= N] is clamped to the last
    marker; an index in [-2N .. -N-2] reads the marker at [2N + i]; only
    [i = -N-1] and [i < -2N] raise [IndexError]; a task without markers
    raises [KeyError]. *)
Theorem get_task_phase_positions :
  forall (trace : Trace) (ev : string) (task : TaskArg) (t : TaskID)
         (df : list MarkerRow) (i : Z),
    ev = "start" \/ ev = "end" ->
    get_task_id trace task = inr t ->
    get_task_id trace (TId t) = inr t ->
    _get_rtapp_phases trace ev (TId t) = inr df ->
    let N := Z.of_nat (length df) in
    let marker j := nth (Z.to_nat j) (map marker_Time df) 0 in
    (N = 0 -> _get_task_phase trace ev task i = inl KeyError)
    /\ (0 < N ->
        (0 <= i < N -> _get_task_phase trace ev task i = inr (marker i))
        /\ (N <= i -> _get_task_phase trace ev task i = inr (marker (N - 1)))
        /\ (- N <= i < 0 -> _get_task_phase trace ev task i = inr (marker (N + i)))
        /\ (i = - N - 1 -> _get_task_phase trace ev task i = inl IndexError)
        /\ (- 2 * N <= i <= - N - 2 ->
            _get_task_phase trace ev task i = inr (marker (2 * N + i)))
        /\ (i < - 2 * N -> _get_task_phase trace ev task i = inl IndexError)).
Proof.
  intros trace ev task t df i Hev Htask Hres Hdf N marker.
  split.
  - intros HN.
    rewrite (get_task_phase_unfold trace ev task t df i Hev Htask Hres Hdf).
    destruct df; [reflexivity | subst N; simpl in HN; lia].
  - intros HN. subst N marker. cbv beta.
    repeat split; intros Hi.
    + apply (get_task_phase_at trace ev task t df i i); auto; lia.
    + apply (get_task_phase_at trace ev task t df i); auto; lia.
    + apply (get_task_phase_at trace ev task t df i); auto; lia.
    + apply (get_task_phase_none trace ev task t df i); auto.
    + apply (get_task_phase_at trace ev task t df i); auto; lia.
    + apply (get_task_phase_none trace ev task t df i); auto.
Qed.

(** C6: with [N >= 1] start markers of the task and [1 <= k <= N],
    [df_rtapp_phase_start] at [-k] and at [N - k] return the same
    timestamp, that of the marker at position [N - k]; in particular [-1]
    and [N - 1] both give the last one.  The same holds for
    [df_rtapp_phase_end] over the end markers. *)
Theorem phase_negative_index :
  forall (trace : Trace) (task : TaskArg) (t : TaskID)
         (starts ends : list MarkerRow) (k : Z),
    get_task_id trace task = inr t ->
    get_task_id trace (TId t) = inr t ->
    df_rtapp_phases_start trace (TId t) = inr starts ->
    df_rtapp_phases_end trace (TId t) = inr ends ->
    (1 <= k <= Z.of_nat (length starts) ->
     df_rtapp_phase_start trace task (- k)
     = df_rtapp_phase_start trace task (Z.of_nat (length starts) - k)
     /\ df_rtapp_phase_start trace task (- k)
        = inr (nth (Z.to_nat (Z.of_nat (length starts) - k))
                   (map marker_Time starts) 0))
    /\ (1 <= k <= Z.of_nat (length ends) ->
        df_rtapp_phase_end trace task (- k)
        = df_rtapp_phase_end trace task (Z.of_nat (length ends) - k)
        /\ df_rtapp_phase_end trace task (- k)
           = inr (nth (Z.to_nat (Z.of_nat (length ends) - k))
                      (map marker_Time ends) 0)).
Proof.
  intros trace task t starts ends k Htask Hres Hstarts Hends.
  unfold df_rtapp_phases_start in Hstarts. unfold df_rtapp_phases_end in Hends.
  destruct (requires_events_inv _ _ _ _ Hstarts) as [Hevents Hstarts'].
  destruct (requires_events_inv _ _ _ _ Hends) as [_ Hends'].
  unfold df_rtapp_phase_start, df_rtapp_phase_end.
  rewrite !(requires_events_ok trace loop_events) by exact Hevents.
  split; intros Hk.
  - rewrite (get_task_phase_at trace "start" task t starts (- k)
               (Z.of_nat (length starts) - k)); auto; try lia.
    rewrite (get_task_phase_at trace "start" task t starts
               (Z.of_nat (length starts) - k) (Z.of_nat (length starts) - k));
      auto; lia.
  - rewrite (get_task_phase_at trace "end" task t ends (- k)
               (Z.of_nat (length ends) - k)); auto; try lia.
    rewrite (get_task_phase_at trace "end" task t ends
               (Z.of_nat (length ends) - k) (Z.of_nat (length ends) - k));
      auto; lia.
Qed.

(** ** Runs of equal phase *)

Lemma df_split_signals_concat (df : list LoopRow) :
  concat (map snd (df_split_signals df)) = df.
Proof.
  induction df as [| r df IH]; simpl.
  - reflexivity.
  - destruct (df_split_signals df) as [| [p run] runs]; simpl in *.
    + rewrite <- IH. reflexivity.
    + destruct (phase r =? p); simpl; rewrite <- IH; reflexivity.
Qed.

Lemma df_split_signals_runs (df : list LoopRow) :
  Forall (fun run => snd run <> [] /\ Forall (fun r => phase r = fst run) (snd run))
         (df_split_signals df).
Proof.
  induction df as [| r df IH]; simpl.
  - constructor.
  - destruct (df_split_signals df) as [| [p run] runs].
    + constructor; [| constructor].
      simpl. split; [discriminate | constructor; [reflexivity | constructor]].
    + inversion IH as [| x l [Hne Hrun] Hruns]; subst. simpl in Hne, Hrun.
      destruct (Z.eqb_spec (phase r) p) as [Heq | Hneq].
      * constructor; [| exact Hruns].
        simpl. split; [discriminate | constructor; assumption].
      * constructor; [| exact IH].
        simpl. split; [discriminate | constructor; [reflexivity | constructor]].
Qed.

Lemma df_split_signals_maximal (df : list LoopRow) :
  Sorted (fun p q => p <> q) (map fst (df_split_signals df)).
Proof.
  induction df as [| r df IH]; simpl.
  - constructor.
  - destruct (df_split_signals df) as [| [p run] runs].
    + simpl. constructor; constructor.
    + destruct (Z.eqb_spec (phase r) p) as [Heq | Hneq].
      * exact IH.
      * simpl. constructor; [exact IH |]. constructor. exact Hneq.
Qed.

(** ** Trimming of a run *)

Lemma rev_last_removelast {A : Type} (a : A) (l : list A) :
  rev (a :: l) = last (a :: l) a :: rev (removelast (a :: l)).
Proof.
  assert (Hne : a :: l <> []) by discriminate.
  rewrite (app_removelast_last a Hne) at 1.
  rewrite rev_app_distr. reflexivity.
Qed.

Lemma filter_partial_loop_trim (run : list LoopRow) :
  filter_partial_loop run = drop_trailing_start (drop_leading_end run).
Proof.
  unfold filter_partial_loop.
  replace (match run with
           | [] => run
           | r :: df' => if (event r =? "end")%string then df' else run
           end) with (drop_leading_end run) by (destruct run; reflexivity).
  destruct (drop_leading_end run) as [| a l]; [reflexivity |].
  unfold drop_trailing_start. rewrite rev_last_removelast.
  destruct (event (last (a :: l) a) =? "start")%string; [| reflexivity].
  rewrite rev_involutive. reflexivity.
Qed.

Lemma drop_leading_end_In (run : list LoopRow) (r : LoopRow) :
  In r (drop_leading_end run) -> In r run.
Proof.
  unfold drop_leading_end. destruct run as [| a run]; [auto |].
  destruct (event a =? "end")%string; [apply in_cons | auto].
Qed.

Lemma drop_trailing_start_In (run : list LoopRow) (r : LoopRow) :
  In r (drop_trailing_start run) -> In r run.
Proof.
  unfold drop_trailing_start.
  destruct (rev run) as [| a rest] eqn:Hrev; [intros [] |].
  destruct (event a =? "start")%string; [| auto].
  intros Hin. apply in_rev. rewrite Hrev. right. apply in_rev. exact Hin.
Qed.

Lemma run_interval_Index (run : Z * list LoopRow) (row : PhaseRow) :
  In row (run_interval run) -> exists r, In r (snd run) /\ Index row = Time r.
Proof.
  unfold run_interval.
  destruct (drop_trailing_start (drop_leading_end (snd run))) as [| a rest] eqn:Htrim.
  - intros [].
  - intros [<- | []]. exists a. split; [| reflexivity].
    apply drop_leading_end_In, drop_trailing_start_In. rewrite Htrim. left. reflexivity.
Qed.

(** ** Intervals *)

Lemma get_duration_cons (p : Z) (r : LoopRow) (rest : list LoopRow) :
  get_duration p (r :: rest)
  = inr (Time r, mkPhaseDict p (Time (last rest r) - Time r)).
Proof.
  assert (Hfirst : iloc (map Time (r :: rest)) 0 = inr (Time r)).
  { simpl map. apply iloc_first. }
  assert (Hlast : iloc (map Time (r :: rest)) (-1) = inr (Time (last rest r))).
  { assert (Hne : r :: rest <> []) by discriminate.
    rewrite (app_removelast_last r Hne).
    rewrite map_app. simpl map. rewrite iloc_last.
    destruct rest; reflexivity. }
  unfold get_duration. rewrite Hfirst, Hlast. reflexivity.
Qed.

Lemma durations_of_runs (runs : list (Z * list LoopRow)) :
  exists durations,
    mapM (fun phase_df => get_duration (fst phase_df) (snd phase_df))
         (filter (fun phase_df => negb (empty (snd phase_df)))
                 (map (fun cols_df => (fst cols_df, filter_partial_loop (snd cols_df)))
                      runs))
    = inr durations
    /\ map phase_row durations = flat_map run_interval runs.
Proof.
  induction runs as [| [p run] runs [durations [Hmap Hrows]]]; simpl.
  - exists []. split; reflexivity.
  - unfold run_interval at 1. simpl fst. simpl snd.
    rewrite <- filter_partial_loop_trim.
    destruct (filter_partial_loop run) as [| r rest]; simpl.
    + exists durations. split; assumption.
    + rewrite get_duration_cons. simpl. rewrite Hmap. simpl.
      eexists. split; [reflexivity |].
      simpl. rewrite Hrows. reflexivity.
Qed.

Lemma StronglySorted_app_inv {A : Type} (R : A -> A -> Prop) (l1 l2 : list A) :
  StronglySorted R (l1 ++ l2) ->
  StronglySorted R l1 /\ StronglySorted R l2
  /\ forall a b, In a l1 -> In b l2 -> R a b.
Proof.
  induction l1 as [| x l1 IH]; simpl; intros Hs.
  - split; [constructor | split; [exact Hs | intros a b []]].
  - inversion Hs as [| x' l' Hs' Hall]; subst.
    destruct (IH Hs') as [H1 [H2 H12]].
    rewrite Forall_app in Hall. destruct Hall as [Hall1 Hall2].
    split; [constructor; assumption | split; [exact H2 |]].
    intros a b [<- | Ha] Hb.
    + rewrite Forall_forall in Hall2. apply Hall2. exact Hb.
    + apply H12; assumption.
Qed.

(** In a table in time order the intervals of the runs come in the order
    of their starts. *)
Lemma run_intervals_ordered (runs : list (Z * list LoopRow)) :
  StronglySorted (fun a b => Time a <= Time b) (concat (map snd runs)) ->
  StronglySorted (fun a b => Index a <= Index b) (flat_map run_interval runs).
Proof.
  induction runs as [| run runs IH]; simpl; intros Hs.
  - constructor.
  - apply StronglySorted_app_inv in Hs. destruct Hs as [_ [Hrest Hcross]].
    specialize (IH Hrest).
    destruct (run_interval run) as [| row rows] eqn:Hrun; simpl; [exact IH |].
    assert (Hone : rows = []).
    { unfold run_interval in Hrun.
      destruct (drop_trailing_start (drop_leading_end (snd run)));
        [discriminate | inversion Hrun; reflexivity]. }
    subst rows. simpl. constructor; [exact IH |].
    rewrite Forall_forall. intros row' Hrow'.
    apply in_flat_map in Hrow'. destruct Hrow' as [run' [Hrun' Hin']].
    destruct (run_interval_Index run row) as [r [Hr ->]]; [rewrite Hrun; left; reflexivity |].
    destruct (run_interval_Index run' row' Hin') as [r' [Hr' ->]].
    apply Hcross; [exact Hr |].
    apply in_concat. exists (snd run'). split; [| exact Hr'].
    apply in_map. exact Hrun'.
Qed.

(** ** Order of the phase table *)

Lemma PhaseDict_eqb_eq (a b : PhaseDict) : PhaseDict_eqb a b = true <-> a = b.
Proof.
  unfold PhaseDict_eqb. destruct a as [p d], b as [p' d']. simpl.
  rewrite andb_true_iff, !Z.eqb_eq. split.
  - intros [-> ->]. reflexivity.
  - intros Heq. inversion Heq. auto.
Qed.

Lemma tuple_lt_tied (x y : Z * PhaseDict) :
  fst y = fst x -> y <> x -> tuple_lt y x = inl TypeError.
Proof.
  intros Hfst Hneq. unfold tuple_lt.
  rewrite (proj2 (Z.eqb_eq _ _) Hfst).
  destruct (PhaseDict_eqb (snd y) (snd x)) eqn:Hd; [| reflexivity].
  apply PhaseDict_eqb_eq in Hd. exfalso. apply Hneq.
  destruct x, y. simpl in *. congruence.
Qed.

Lemma tuple_lt_same (x : Z * PhaseDict) : tuple_lt x x = inr false.
Proof.
  unfold tuple_lt. rewrite Z.eqb_refl.
  rewrite (proj2 (PhaseDict_eqb_eq _ _) eq_refl). reflexivity.
Qed.

Lemma tuple_lt_apart (x y : Z * PhaseDict) :
  fst y <> fst x -> tuple_lt y x = inr (fst y <? fst x).
Proof.
  intros Hneq. unfold tuple_lt.
  rewrite (proj2 (Z.eqb_neq _ _) Hneq). reflexivity.
Qed.

(** The ways an insertion can go at the head of the list. *)
Lemma insert_tuple_cases (x y : Z * PhaseDict) (l : list (Z * PhaseDict)) :
  (fst y = fst x /\ y <> x /\ insert_tuple x (y :: l) = inl TypeError)
  \/ (fst x <= fst y /\ (fst y = fst x -> y = x)
      /\ insert_tuple x (y :: l) = inr (x :: y :: l))
  \/ (fst y < fst x
      /\ insert_tuple x (y :: l) = (l'' <- insert_tuple x l ;; ret (y :: l''))).
Proof.
  destruct (Z.eq_dec (fst y) (fst x)) as [Heq | Hneq].
  - destruct (PhaseDict_eqb (snd y) (snd x)) eqn:Hd.
    + apply PhaseDict_eqb_eq in Hd.
      assert (Hyx : y = x) by (destruct x, y; simpl in *; congruence).
      subst y. right. left. split; [lia |]. split; [reflexivity |].
      simpl. rewrite tuple_lt_same. reflexivity.
    + left. split; [exact Heq |].
      assert (Hyx : y <> x).
      { intros ->. rewrite (proj2 (PhaseDict_eqb_eq _ _) eq_refl) in Hd. discriminate. }
      split; [exact Hyx |]. simpl. rewrite (tuple_lt_tied x y Heq Hyx). reflexivity.
  - right. simpl. rewrite (tuple_lt_apart x y Hneq). simpl.
    destruct (Z.ltb_spec (fst y) (fst x)) as [Hlt | Hge].
    + right. split; [exact Hlt | reflexivity].
    + left. split; [lia |]. split; [intros Heq; contradiction | reflexivity].
Qed.

Lemma insert_tuple_sorted (x : Z * PhaseDict) (s s' : list (Z * PhaseDict)) :
  StronglySorted (fun a b => fst a <= fst b) s ->
  insert_tuple x s = inr s' ->
  StronglySorted (fun a b => fst a <= fst b) s'
  /\ forall z, In z s' -> z = x \/ In z s.
Proof.
  intros Hs. revert s'.
  induction Hs as [| y l Hsorted IH Hall]; intros s' Hins.
  - inversion Hins; subst. split.
    + constructor; constructor.
    + intros z [<- | []]. auto.
  - destruct (insert_tuple_cases x y l)
      as [[_ [_ Herr]] | [[Hle [_ Hhere]] | [Hlt Hrec]]].
    + rewrite Herr in Hins. discriminate.
    + rewrite Hhere in Hins. inversion Hins; subst. split.
      * constructor; [constructor; assumption |].
        constructor; [exact Hle |].
        eapply Forall_impl; [| exact Hall]. simpl. intros; lia.
      * intros z [<- | Hz]; auto.
    + rewrite Hrec in Hins.
      destruct (insert_tuple x l) as [e | l''] eqn:Hl; simpl in Hins; [discriminate |].
      inversion Hins; subst.
      destruct (IH l'' eq_refl) as [Hsorted'' Hin''].
      split.
      * constructor; [exact Hsorted'' |].
        rewrite Forall_forall in *. intros z Hz.
        destruct (Hin'' z Hz) as [-> | Hzl]; [lia | apply Hall; exact Hzl].
      * intros z [<- | Hz]; [right; left; reflexivity |].
        destruct (Hin'' z Hz); [auto | right; right; assumption].
Qed.

Lemma sorted_tuples_sorted (l s : list (Z * PhaseDict)) :
  sorted_tuples l = inr s -> StronglySorted (fun a b => fst a <= fst b) s.
Proof.
  revert s. induction l as [| x l IH]; simpl; intros s Hs.
  - inversion Hs. constructor.
  - destruct (sorted_tuples l) as [e | s0]; simpl in Hs; [discriminate |].
    apply (insert_tuple_sorted x s0 s); [apply IH; reflexivity | exact Hs].
Qed.

Lemma insert_tuple_perm (x : Z * PhaseDict) (s s' : list (Z * PhaseDict)) :
  insert_tuple x s = inr s' -> Permutation (x :: s) s'.
Proof.
  revert s'. induction s as [| y l IH]; intros s' Hins.
  - inversion Hins. apply Permutation_refl.
  - destruct (insert_tuple_cases x y l)
      as [[_ [_ Herr]] | [[_ [_ Hhere]] | [_ Hrec]]].
    + rewrite Herr in Hins. discriminate.
    + rewrite Hhere in Hins. inversion Hins. apply Permutation_refl.
    + rewrite Hrec in Hins.
      destruct (insert_tuple x l) as [e | l''] eqn:Hl; simpl in Hins; [discriminate |].
      inversion Hins; subst.
      eapply perm_trans; [apply perm_swap |].
      apply perm_skip. apply IH. reflexivity.
Qed.

Lemma sorted_tuples_perm (l s : list (Z * PhaseDict)) :
  sorted_tuples l = inr s -> Permutation l s.
Proof.
  revert s. induction l as [| x l IH]; simpl; intros s Hs.
  - inversion Hs. apply Permutation_refl.
  - destruct (sorted_tuples l) as [e | s0]; simpl in Hs; [discriminate |].
    eapply perm_trans; [apply perm_skip, IH; reflexivity |].
    apply insert_tuple_perm. exact Hs.
Qed.

(** [sorted] raises nothing but the [TypeError] of two dicts. *)
Lemma insert_tuple_error (x : Z * PhaseDict) (s : list (Z * PhaseDict)) (e : exn) :
  insert_tuple x s = inl e -> e = TypeError.
Proof.
  induction s as [| y l IH]; intros Hins.
  - discriminate.
  - destruct (insert_tuple_cases x y l)
      as [[_ [_ Herr]] | [[_ [_ Hhere]] | [_ Hrec]]].
    + rewrite Herr in Hins. inversion Hins. reflexivity.
    + rewrite Hhere in Hins. discriminate.
    + rewrite Hrec in Hins.
      destruct (insert_tuple x l) as [e' | l'']; simpl in Hins; [| discriminate].
      inversion Hins; subst. apply IH. reflexivity.
Qed.

Lemma sorted_tuples_error (l : list (Z * PhaseDict)) (e : exn) :
  sorted_tuples l = inl e -> e = TypeError.
Proof.
  induction l as [| x l IH]; simpl; intros Hs.
  - discriminate.
  - destruct (sorted_tuples l) as [e' | s0]; simpl in Hs.
    + inversion Hs; subst. apply IH. reflexivity.
    + eapply insert_tuple_error. exact Hs.
Qed.

(** An insertion that goes through has met no tuple that ties with the
    new one, and one that meets none goes through. *)
Lemma insert_tuple_untied (x : Z * PhaseDict) (s s' : list (Z * PhaseDict)) :
  StronglySorted (fun a b => fst a <= fst b) s ->
  (forall a b, In a s -> In b s -> fst a = fst b -> a = b) ->
  insert_tuple x s = inr s' ->
  forall y, In y s -> fst y = fst x -> y = x.
Proof.
  intros Hs. revert s'.
  induction Hs as [| y0 l Hsorted IH Hall]; intros s' Huntied Hins y Hy Hfst.
  - destruct Hy.
  - rewrite Forall_forall in Hall.
    destruct (insert_tuple_cases x y0 l)
      as [[_ [_ Herr]] | [[Hle [Hsame _]] | [Hlt Hrec]]].
    + rewrite Herr in Hins. discriminate.
    + destruct Hy as [<- | Hy]; [apply Hsame; exact Hfst |].
      specialize (Hall y Hy). simpl in Hall.
      assert (Hy0 : fst y0 = fst x) by lia.
      rewrite <- (Hsame Hy0).
      apply Huntied; [right; exact Hy | left; reflexivity | lia].
    + destruct Hy as [<- | Hy]; [lia |].
      rewrite Hrec in Hins.
      destruct (insert_tuple x l) as [e | l''] eqn:Hl; simpl in Hins; [discriminate |].
      apply (IH l''); auto.
      intros a b Ha Hb. apply Huntied; right; assumption.
Qed.

Lemma insert_tuple_defined (x : Z * PhaseDict) (s : list (Z * PhaseDict)) :
  (forall y, In y s -> fst y = fst x -> y = x) ->
  exists s', insert_tuple x s = inr s'.
Proof.
  induction s as [| y l IH]; intros Huntied.
  - exists [x]. reflexivity.
  - destruct (insert_tuple_cases x y l)
      as [[Heq [Hneq _]] | [[_ [_ Hhere]] | [_ Hrec]]].
    + exfalso. apply Hneq. apply Huntied; [left; reflexivity | exact Heq].
    + eexists. exact Hhere.
    + destruct IH as [l'' Hl]; [intros z Hz; apply Huntied; right; exact Hz |].
      exists (y :: l''). rewrite Hrec, Hl. reflexivity.
Qed.

Lemma sorted_tuples_untied (l s : list (Z * PhaseDict)) :
  sorted_tuples l = inr s ->
  forall a b, In a l -> In b l -> fst a = fst b -> a = b.
Proof.
  revert s. induction l as [| x l IH]; simpl; intros s Hs a b Ha Hb Hfst.
  - destruct Ha.
  - destruct (sorted_tuples l) as [e | s0] eqn:Hrec; simpl in Hs; [discriminate |].
    pose proof (sorted_tuples_perm l s0 Hrec) as Hperm.
    assert (Hnew : forall y, In y l -> fst y = fst x -> y = x).
    { intros y Hy. apply (insert_tuple_untied x s0 s).
      - eapply sorted_tuples_sorted. exact Hrec.
      - intros a' b' Ha' Hb'. apply (IH s0 eq_refl).
        + eapply Permutation_in; [apply Permutation_sym; exact Hperm | exact Ha'].
        + eapply Permutation_in; [apply Permutation_sym; exact Hperm | exact Hb'].
      - exact Hs.
      - eapply Permutation_in; [exact Hperm | exact Hy]. }
    destruct Ha as [<- | Ha], Hb as [<- | Hb].
    + reflexivity.
    + symmetry. apply Hnew; [exact Hb | symmetry; exact Hfst].
    + apply Hnew; assumption.
    + apply (IH s0 eq_refl); assumption.
Qed.

Lemma sorted_tuples_defined (l : list (Z * PhaseDict)) :
  (forall a b, In a l -> In b l -> fst a = fst b -> a = b) ->
  exists s, sorted_tuples l = inr s.
Proof.
  induction l as [| x l IH]; simpl; intros Huntied.
  - exists []. reflexivity.
  - destruct IH as [s0 Hrec].
    { intros a b Ha Hb. apply Huntied; right; assumption. }
    rewrite Hrec. simpl.
    apply insert_tuple_defined. intros y Hy.
    apply Huntied; [right | left; reflexivity].
    eapply Permutation_in; [apply Permutation_sym, sorted_tuples_perm; exact Hrec | exact Hy].
Qed.

(** A list already in order, without ties, is left as it is. *)
Lemma sorted_tuples_ordered (l : list (Z * PhaseDict)) :
  StronglySorted (fun a b => fst a <= fst b) l ->
  (forall a b, In a l -> In b l -> fst a = fst b -> a = b) ->
  sorted_tuples l = inr l.
Proof.
  induction 1 as [| x l Hsorted IH Hall]; intros Huntied.
  - reflexivity.
  - simpl. rewrite IH by (intros a b Ha Hb; apply Huntied; right; assumption).
    simpl. destruct l as [| y l]; [reflexivity |].
    inversion Hall as [| y' l' Hxy _]; subst.
    destruct (insert_tuple_cases x y l)
      as [[Heq [Hneq _]] | [[_ [_ Hhere]] | [Hlt _]]].
    + exfalso. apply Hneq.
      apply Huntied; [right; left; reflexivity | left; reflexivity | exact Heq].
    + exact Hhere.
    + lia.
Qed.

(** Tuples and rows of the frame correspond one to one. *)
Lemma phase_row_inj (d d' : Z * PhaseDict) : phase_row d = phase_row d' -> d = d'.
Proof.
  destruct d as [z [p du]], d' as [z' [p' du']]. unfold phase_row. simpl.
  intros Heq. inversion Heq. reflexivity.
Qed.

Lemma no_tied_starts_tuples (durations : list (Z * PhaseDict)) :
  no_tied_starts (map phase_row durations)
  <-> (forall a b, In a durations -> In b durations -> fst a = fst b -> a = b).
Proof.
  unfold no_tied_starts. split.
  - intros Hrows a b Ha Hb Hfst. apply phase_row_inj.
    apply Hrows; [apply in_map; exact Ha | apply in_map; exact Hb | exact Hfst].
  - intros Htuples a b Ha Hb Hidx.
    apply in_map_iff in Ha. destruct Ha as [da [<- Hda]].
    apply in_map_iff in Hb. destruct Hb as [db [<- Hdb]].
    f_equal. apply Htuples; assumption.
Qed.

Lemma phase_rows_ordered (durations : list (Z * PhaseDict)) :
  StronglySorted (fun a b => Index a <= Index b) (map phase_row durations)
  <-> StronglySorted (fun a b => fst a <= fst b) durations.
Proof.
  induction durations as [| d durations IH]; simpl.
  - split; constructor.
  - split; intros Hs; inversion Hs as [| x l Hs' Hall]; subst.
    + constructor; [apply IH; exact Hs' |].
      rewrite Forall_forall in *. intros d' Hd'.
      apply (Hall (phase_row d')). apply in_map. exact Hd'.
    + constructor; [apply IH; exact Hs' |].
      rewrite Forall_forall in *. intros row Hrow.
      apply in_map_iff in Hrow. destruct Hrow as [d' [<- Hd']].
      apply (Hall d'). exact Hd'.
Qed.

(** [df_phases] once the loop table is known: the tuples of the runs that
    are left non-empty, handed to [sorted]. *)
Lemma df_phases_unfold (trace : Trace) (task : TaskArg) (loops : list LoopRow) :
  df_rtapp_loop trace task = inr loops ->
  exists durations,
    map phase_row durations = flat_map run_interval (df_split_signals loops)
    /\ df_phases trace task
       = (sorted <- sorted_tuples durations ;; ret (map phase_row sorted)).
Proof.
  intros Hloops.
  destruct (durations_of_runs (df_split_signals loops)) as [durations [Hmap Hrows]].
  exists durations. split; [exact Hrows |].
  unfold df_phases.
  rewrite (requires_events_ok _ _ _ (df_rtapp_loop_events _ _ _ Hloops)).
  rewrite Hloops. simpl bind. rewrite Hmap. reflexivity.
Qed.

(** X15: [df_phases] splits the rows of a per-task loop table into the
    maximal contiguous runs of equal [phase], in table order; it drops
    the first row of a run when that is an ``end`` and then the last one
    when that is a ``start``; every run left non-empty contributes one
    row, whose index is the timestamp of the first remaining row and
    whose duration is the timestamp of the last remaining row minus that
    index; an emptied run contributes none.  When no two of these rows
    tie on their start, the frame holds exactly these rows sorted by
    start, in the order of the runs when the table is in time order.
    When two of them start at the same instant with a different phase or
    duration, [sorted] has to order their dicts and [df_phases] raises
    [TypeError] instead of returning the sorted frame. *)
Theorem df_phases_spec :
  forall (trace : Trace) (task : TaskArg) (loops : list LoopRow),
    df_rtapp_loop trace task = inr loops ->
    let runs := df_split_signals loops in
    let rows := flat_map run_interval runs in
    concat (map snd runs) = loops
    /\ Forall (fun run => snd run <> []
                          /\ Forall (fun r => phase r = fst run) (snd run)) runs
    /\ Sorted (fun p q => p <> q) (map fst runs)
    /\ (forall run, filter_partial_loop run
                    = drop_trailing_start (drop_leading_end run))
    /\ (no_tied_starts rows ->
        exists out,
          df_phases trace task = inr out
          /\ Permutation rows out
          /\ StronglySorted (fun a b => Index a <= Index b) out
          /\ (StronglySorted (fun a b => Time a <= Time b) loops -> out = rows))
    /\ (~ no_tied_starts rows -> df_phases trace task = inl TypeError).
Proof.
  intros trace task loops Hloops runs rows.
  split; [apply df_split_signals_concat |].
  split; [apply df_split_signals_runs |].
  split; [apply df_split_signals_maximal |].
  split; [apply filter_partial_loop_trim |].
  destruct (df_phases_unfold trace task loops Hloops) as [durations [Hrows Hdf]].
  fold runs in Hrows. fold rows in Hrows. rewrite Hdf. clear Hdf.
  split.
  - intros Hrows_untied. rewrite <- Hrows in Hrows_untied.
    pose proof (proj1 (no_tied_starts_tuples durations) Hrows_untied) as Huntied.
    destruct (sorted_tuples_defined durations Huntied) as [s Hs].
    exists (map phase_row s). rewrite Hs. split; [reflexivity |].
    split; [| split].
    + rewrite <- Hrows. apply Permutation_map. apply sorted_tuples_perm. exact Hs.
    + apply phase_rows_ordered. eapply sorted_tuples_sorted. exact Hs.
    + intros Htime.
      assert (Hord : StronglySorted (fun a b => fst a <= fst b) durations).
      { apply phase_rows_ordered. rewrite Hrows. subst rows.
        apply run_intervals_ordered. subst runs.
        rewrite df_split_signals_concat. exact Htime. }
      rewrite (sorted_tuples_ordered durations Hord Huntied) in Hs.
      inversion Hs; subst. exact Hrows.
  - intros Htied.
    destruct (sorted_tuples durations) as [e | s] eqn:Hs.
    + simpl. rewrite (sorted_tuples_error durations e Hs). reflexivity.
    + exfalso. apply Htied. rewrite <- Hrows.
      apply no_tied_starts_tuples. eapply sorted_tuples_untied. exact Hs.
Qed.

Lemma df_phases_sorted (trace : Trace) (task : TaskArg) (df : list PhaseRow) :
  df_phases trace task = inr df ->
  StronglySorted Z.le (map Index df).
Proof.
  unfold df_phases. intros Hdf.
  apply requires_events_inv in Hdf. destruct Hdf as [_ Hdf].
  apply bind_inv in Hdf. destruct Hdf as [loops [_ Hdf]].
  apply bind_inv in Hdf. destruct Hdf as [durations [_ Hdf]].
  apply bind_inv in Hdf. destruct Hdf as [sorted [Hsorted Hdf]].
  inversion Hdf; subst. clear Hdf.
  apply sorted_tuples_sorted in Hsorted.
  induction Hsorted as [| d ds Hs IH Hall]; simpl.
  - constructor.
  - constructor; [exact IH |].
    rewrite Forall_forall in *. intros t Ht.
    apply in_map_iff in Ht. destruct Ht as [row [<- Hrow]].
    apply in_map_iff in Hrow. destruct Hrow as [d' [<- Hd']].
    simpl. apply Hall. exact Hd'.
Qed.

(** ** Forward-fill lookup *)

Lemma is_unique_NoDup (index : list Z) : NoDup index -> is_unique index = true.
Proof.
  induction 1 as [| t index Hnotin Hnodup IH]; simpl.
  - reflexivity.
  - rewrite IH, andb_true_r, negb_true_iff.
    destruct (existsb (Z.eqb t) index) eqn:Hex; [| reflexivity].
    apply existsb_exists in Hex. destruct Hex as [u [Hu Heq]].
    apply Z.eqb_eq in Heq. subst. contradiction.
Qed.

Lemma is_monotonic_sorted (index : list Z) :
  StronglySorted Z.le index -> is_monotonic_increasing index = true.
Proof.
  induction 1 as [| t index Hsorted IH Hall].
  - reflexivity.
  - destruct index as [| u index]; [reflexivity |].
    change (((t <=? u) && is_monotonic_increasing (u :: index)) = true).
    rewrite IH, andb_true_r. apply Z.leb_le.
    inversion Hall. assumption.
Qed.

Lemma filter_none {A : Type} (f : A -> bool) (l : list A) :
  (forall x, In x l -> f x = false) -> filter f l = [].
Proof.
  induction l as [| a l IH]; simpl; intros Hall.
  - reflexivity.
  - rewrite (Hall a) by auto. apply IH. auto.
Qed.

(** On a strictly increasing index the labels not after [key] form a
    prefix, and the row of the greatest of them closes it. *)
Lemma ffill_position (df : list PhaseRow) (key : Z) (row : PhaseRow) :
  StronglySorted (fun a b => Index a < Index b) df ->
  In row df ->
  Index row <= key ->
  (forall row', In row' df -> Index row' <= key -> Index row' <= Index row) ->
  exists n,
    length (filter (fun t => t <=? key) (map Index df)) = S n
    /\ nth_error df n = Some row.
Proof.
  induction 1 as [| a df Hsorted IH Hall]; intros Hin Hkey Hmax.
  - destruct Hin.
  - rewrite Forall_forall in Hall.
    destruct Hin as [-> | Hin].
    + exists 0%nat. split; [| reflexivity].
      simpl. replace (Index row <=? key) with true by (symmetry; apply Z.leb_le; lia).
      rewrite filter_none; [reflexivity |].
      intros t Ht. apply in_map_iff in Ht. destruct Ht as [b [<- Hb]].
      apply Z.leb_gt.
      destruct (Z.le_gt_cases (Index b) key) as [Hle | Hgt]; [| lia].
      specialize (Hall b Hb). specialize (Hmax b (or_intror Hb) Hle). lia.
    + destruct IH as [n [Hlen Hnth]]; auto.
      * intros row' Hrow' Hle. apply Hmax; [right; exact Hrow' | exact Hle].
      * exists (S n). split; [| exact Hnth].
        specialize (Hall row Hin).
        simpl. replace (Index a <=? key) with true by (symmetry; apply Z.leb_le; lia).
        simpl. rewrite Hlen. reflexivity.
Qed.

Lemma strictly_increasing_index (df : list PhaseRow) :
  StronglySorted Z.le (map Index df) ->
  NoDup (map Index df) ->
  StronglySorted (fun a b => Index a < Index b) df.
Proof.
  induction df as [| a df IH]; simpl; intros Hs Hnodup.
  - constructor.
  - inversion Hs as [| x l Hs' Hall]; subst.
    inversion Hnodup as [| x l Hnotin Hnodup']; subst.
    constructor; [apply IH; assumption |].
    rewrite Forall_forall in *. intros b Hb.
    assert (Hin : In (Index b) (map Index df)) by (apply in_map; exact Hb).
    specialize (Hall _ Hin).
    assert (Index a <> Index b) by (intros Heq; rewrite Heq in Hnotin; contradiction).
    lia.
Qed.

(** C4: on a phase table with at least one row and distinct starts,
    [task_phase_at] raises [ValueError] for a timestamp after the end of
    the last phase; otherwise, when some phase starts at or before the
    timestamp, it returns the window of the phase with the greatest such
    start, with that phase's number and the bounds
    [(start, start + duration)]. *)
Theorem task_phase_at_spec :
  forall (trace : Trace) (task : TaskArg) (df : list PhaseRow)
         (last_row : PhaseRow) (timestamp : Z),
    df_phases trace task = inr (df ++ [last_row]) ->
    NoDup (map Index (df ++ [last_row])) ->
    (Index last_row + duration last_row < timestamp ->
     task_phase_at trace task timestamp = inl ValueError)
    /\ (timestamp <= Index last_row + duration last_row ->
        forall row,
          In row (df ++ [last_row]) ->
          Index row <= timestamp ->
          (forall row', In row' (df ++ [last_row]) ->
                        Index row' <= timestamp -> Index row' <= Index row) ->
          task_phase_at trace task timestamp
          = inr (mkPhaseWindow (row_phase row) (Index row)
                               (Index row + duration row))).
Proof.
  intros trace task df last_row timestamp Hdf Hnodup.
  assert (Hevents : forallb (has_events trace) loop_events = true).
  { unfold df_phases in Hdf. apply requires_events_inv in Hdf. tauto. }
  unfold task_phase_at. rewrite (requires_events_ok _ _ _ Hevents).
  rewrite Hdf. simpl bind.
  rewrite iloc_last. simpl bind.
  split.
  - intros Hafter.
    replace (timestamp >? Index last_row + duration last_row) with true
      by (symmetry; apply Z.gtb_lt; lia).
    reflexivity.
  - intros Hwithin row Hin Hstart Hmax.
    replace (timestamp >? Index last_row + duration last_row) with false
      by (symmetry; rewrite Z.gtb_ltb; apply Z.ltb_ge; lia).
    assert (Hsorted : StronglySorted (fun a b => Index a < Index b) (df ++ [last_row])).
    { apply strictly_increasing_index; [| exact Hnodup].
      eapply df_phases_sorted; eauto. }
    destruct (ffill_position _ timestamp row Hsorted Hin Hstart Hmax) as [n [Hlen Hnth]].
    unfold get_loc_ffill.
    rewrite (is_unique_NoDup _ Hnodup).
    rewrite (is_monotonic_sorted _ (df_phases_sorted _ _ _ Hdf)).
    simpl negb. cbv iota.
    destruct (filter (fun t => t <=? timestamp) (map Index (df ++ [last_row])))
      as [| t pad] eqn:Hpad; [discriminate |].
    rewrite Hlen.
    rewrite (bind_inr _ _ (Z.of_nat (S n) - 1) eq_refl).
    assert (Hn : (n < length (df ++ [last_row]))%nat).
    { apply nth_error_Some. rewrite Hnth. discriminate. }
    rewrite (iloc_nth _ _ row) by lia.
    replace (Z.to_nat (Z.of_nat (S n) - 1)) with n by lia.
    rewrite (nth_error_nth _ _ row Hnth). reflexivity.
Qed.

(** ** Boundary markers *)

Lemma group_key_eqb_eq (a b : string * Z * Z * string) :
  group_key_eqb a b = true <-> a = b.
Proof.
  destruct a as [[[c1 p1] ph1] e1], b as [[[c2 p2] ph2] e2]. simpl.
  rewrite !andb_true_iff, !Z.eqb_eq, !String.eqb_eq. split.
  - intros [[[-> ->] ->] ->]. reflexivity.
  - intros H. inversion H. auto.
Qed.

Lemma seen_key (k : string * Z * Z * string) (seen : list (string * Z * Z * string)) :
  existsb (group_key_eqb k) seen = true <-> In k seen.
Proof.
  rewrite existsb_exists. split.
  - intros [k' [Hin Heq]]. apply group_key_eqb_eq in Heq. subst. exact Hin.
  - intros Hin. exists k. split; [exact Hin | apply group_key_eqb_eq; reflexivity].
Qed.

Lemma groupby_head1_fresh (seen : list (string * Z * Z * string)) (df : list LoopRow)
    (r : LoopRow) :
  In r (groupby_head1 seen df) -> ~ In (group_key r) seen.
Proof.
  revert seen. induction df as [| a df IH]; intros seen; simpl.
  - intros [].
  - destruct (existsb (group_key_eqb (group_key a)) seen) eqn:Hseen.
    + apply IH.
    + intros [<- | Hin].
      * intros Hk. apply seen_key in Hk. congruence.
      * intros Hk. apply (IH _ Hin). right. exact Hk.
Qed.

Lemma groupby_head1_NoDup (seen : list (string * Z * Z * string)) (df : list LoopRow) :
  NoDup (map group_key (groupby_head1 seen df)).
Proof.
  revert seen. induction df as [| a df IH]; intros seen; simpl.
  - constructor.
  - destruct (existsb (group_key_eqb (group_key a)) seen).
    + apply IH.
    + simpl. constructor; [| apply IH].
      intros Hin. apply in_map_iff in Hin. destruct Hin as [r [Hkey Hr]].
      apply groupby_head1_fresh in Hr. apply Hr. left. symmetry. exact Hkey.
Qed.

Lemma groupby_head1_covers (seen : list (string * Z * Z * string)) (df : list LoopRow)
    (r : LoopRow) :
  In r df -> ~ In (group_key r) seen ->
  exists r', In r' (groupby_head1 seen df) /\ group_key r' = group_key r.
Proof.
  revert seen. induction df as [| a df IH]; intros seen; simpl.
  - intros [].
  - intros Hin Hfresh.
    destruct (existsb (group_key_eqb (group_key a)) seen) eqn:Hseen.
    + destruct Hin as [-> | Hin].
      * apply seen_key in Hseen. contradiction.
      * apply IH; assumption.
    + destruct Hin as [-> | Hin].
      * exists r. split; [left; reflexivity | reflexivity].
      * destruct (group_key_eqb (group_key a) (group_key r)) eqn:Hsame.
        -- apply group_key_eqb_eq in Hsame. exists a. split; [left; reflexivity | exact Hsame].
        -- destruct (IH (group_key a :: seen) Hin) as [r' [Hr' Hkey]].
           ++ intros [Heq | Hs]; [| contradiction].
              rewrite Heq in Hsame.
              rewrite (proj2 (group_key_eqb_eq _ _) eq_refl) in Hsame. discriminate.
           ++ exists r'. split; [right; exact Hr' | exact Hkey].
Qed.

(** The row kept for a group is the first of the group in the frame. *)
Lemma groupby_head1_first (seen : list (string * Z * Z * string)) (df : list LoopRow)
    (r : LoopRow) :
  In r (groupby_head1 seen df) <->
  ~ In (group_key r) seen
  /\ exists before after,
       df = before ++ r :: after
       /\ forall r', In r' before -> group_key r' <> group_key r.
Proof.
  revert seen. induction df as [| a df IH]; intros seen; simpl.
  - split; [intros [] |].
    intros [_ [before [after [Hdf _]]]]. destruct before; discriminate.
  - destruct (existsb (group_key_eqb (group_key a)) seen) eqn:Hseen.
    + rewrite IH. split.
      * intros [Hfresh [before [after [-> Hfirst]]]].
        split; [exact Hfresh |].
        exists (a :: before), after. split; [reflexivity |].
        intros r' [<- | Hr']; [| apply Hfirst; exact Hr'].
        intros Heq. apply seen_key in Hseen. rewrite Heq in Hseen. contradiction.
      * intros [Hfresh [before [after [Hdf Hfirst]]]].
        split; [exact Hfresh |].
        destruct before as [| b before]; simpl in Hdf; inversion Hdf; subst.
        -- apply seen_key in Hseen. contradiction.
        -- exists before, after. split; [reflexivity |].
           intros r' Hr'. apply Hfirst. right. exact Hr'.
    + simpl. rewrite IH. split.
      * intros [<- | [Hfresh [before [after [-> Hfirst]]]]].
        -- split.
           ++ intros Hk. apply seen_key in Hk. congruence.
           ++ exists [], df. split; [reflexivity | intros r' []].
        -- split; [intros Hk; apply Hfresh; right; exact Hk |].
           exists (a :: before), after. split; [reflexivity |].
           intros r' [<- | Hr']; [| apply Hfirst; exact Hr'].
           intros Heq. apply Hfresh. left. exact Heq.
      * intros [Hfresh [before [after [Hdf Hfirst]]]].
        destruct before as [| b before]; simpl in Hdf; inversion Hdf; subst.
        -- left. reflexivity.
        -- right. split.
           ++ intros [Heq | Hk]; [| contradiction].
              apply (Hfirst b); [left; reflexivity | exact Heq].
           ++ exists before, after. split; [reflexivity |].
              intros r' Hr'. apply Hfirst. right. exact Hr'.
Qed.

Lemma filter_split {A : Type} (f : A -> bool) (l m1 m2 : list A) (a : A) :
  filter f l = m1 ++ a :: m2 ->
  exists l1 l2, l = l1 ++ a :: l2 /\ filter f l1 = m1 /\ filter f l2 = m2.
Proof.
  revert m1. induction l as [| x l IH]; intros m1; simpl.
  - intros H. destruct m1; discriminate.
  - destruct (f x) eqn:Hfx.
    + destruct m1 as [| y m1]; simpl; intros H; inversion H; subst.
      * exists [], l. simpl. auto.
      * destruct (IH m1 H2) as [l1 [l2 [-> [H1' H2']]]].
        exists (y :: l1), l2. simpl. rewrite Hfx, H1'. auto.
    + intros H. destruct (IH m1 H) as [l1 [l2 [-> [H1' H2']]]].
      exists (x :: l1), l2. simpl. rewrite Hfx. auto.
Qed.

Lemma loops_geb_spec (a b : LoopRow) : loops_geb a b = true <-> loop_counters_le b a.
Proof.
  unfold loops_geb, loop_counters_le.
  rewrite orb_true_iff, andb_true_iff, Z.ltb_lt, Z.eqb_eq, Z.leb_le.
  intuition lia.
Qed.

Lemma loops_geb_total (a b : LoopRow) : loops_geb a b = true \/ loops_geb b a = true.
Proof. rewrite !loops_geb_spec. unfold loop_counters_le. lia. Qed.

Lemma loops_geb_trans (a b c : LoopRow) :
  loops_geb a b = true -> loops_geb b c = true -> loops_geb a c = true.
Proof. rewrite !loops_geb_spec. unfold loop_counters_le. lia. Qed.

Lemma Time_leb_total {R : Type} `{EventTable R} (a b : R) :
  Time_leb a b = true \/ Time_leb b a = true.
Proof. unfold Time_leb. rewrite !Z.leb_le. lia. Qed.

Lemma Time_leb_trans {R : Type} `{EventTable R} (a b c : R) :
  Time_leb a b = true -> Time_leb b c = true -> Time_leb a c = true.
Proof. unfold Time_leb. rewrite !Z.leb_le. lia. Qed.

Lemma NoDup_phase_key (ev : string) (l : list LoopRow) :
  (forall r, In r l -> event r = ev) ->
  NoDup (map group_key l) -> NoDup (map phase_key l).
Proof.
  intros Hev. induction l as [| a l IH]; simpl; intros Hnodup.
  - constructor.
  - inversion Hnodup as [| k ks Hnotin Hnodup']; subst.
    constructor.
    + intros Hin. apply Hnotin.
      apply in_map_iff in Hin. destruct Hin as [r [Hkey Hr]].
      apply in_map_iff. exists r. split; [| exact Hr].
      change (group_key r) with (phase_key r, event r).
      change (group_key a) with (phase_key a, event a).
      rewrite Hkey, (Hev r), (Hev a); simpl; auto.
    + apply IH; [| exact Hnodup'].
      intros r Hr. apply Hev. right. exact Hr.
Qed.

Lemma StronglySorted_weaken {A : Type} (R S : A -> A -> Prop) (l : list A) :
  (forall a b, R a b -> S a b) -> StronglySorted R l -> StronglySorted S l.
Proof.
  intros HRS. induction 1 as [| a l Hs IH Hall].
  - constructor.
  - constructor; [exact IH |].
    eapply Forall_impl; [| exact Hall]. intros b. apply HRS.
Qed.

Lemma rtapp_phases_rows_sorted (ev : string) (df : list LoopRow) :
  StronglySorted (fun a b => Time a <= Time b) (rtapp_phases_rows ev df).
Proof.
  unfold rtapp_phases_rows.
  apply StronglySorted_weaken with (R := le_of Time_leb).
  - intros a b Hab. apply Z.leb_le. exact Hab.
  - apply stable_sort_sorted.
    + apply Time_leb_total.
    + apply Time_leb_trans.
Qed.

Lemma rtapp_phases_rows_NoDup (ev : string) (df : list LoopRow) :
  NoDup (map phase_key (rtapp_phases_rows ev df)).
Proof.
  apply (NoDup_phase_key ev).
  - intros r Hr. apply rtapp_phases_rows_In in Hr. tauto.
  - unfold rtapp_phases_rows.
    eapply Permutation_NoDup.
    + apply Permutation_map. apply stable_sort_perm.
    + apply groupby_head1_NoDup.
Qed.

Lemma same_group (a b : LoopRow) :
  event a = event b -> (group_key a = group_key b <-> phase_key a = phase_key b).
Proof.
  intros Hev.
  change (group_key a) with (phase_key a, event a).
  change (group_key b) with (phase_key b, event b).
  rewrite Hev. split.
  - intros H. exact (f_equal fst H).
  - intros ->. reflexivity.
Qed.

Lemma start_rows_first (df : list LoopRow) (r : LoopRow) :
  In r (rtapp_phases_rows "start" df) <-> first_start_of_group df r.
Proof.
  change (rtapp_phases_rows "start" df)
    with (stable_sort Time_leb
            (groupby_head1 []
               (filter (fun r => phase_loop r =? 0)
                       (filter (fun r => (event r =? "start")%string) df)))).
  rewrite stable_sort_In, groupby_head1_first. unfold first_start_of_group. split.
  - intros [_ [before [after [Hsel Hfirst]]]].
    assert (Hr : In r (filter (fun r => phase_loop r =? 0)
                              (filter (fun r => (event r =? "start")%string) df))).
    { rewrite Hsel. apply in_or_app. right. left. reflexivity. }
    apply filter_In in Hr. destruct Hr as [Hr Hloop].
    apply filter_In in Hr. destruct Hr as [_ Hev].
    apply Z.eqb_eq in Hloop. apply String.eqb_eq in Hev.
    apply filter_split in Hsel. destruct Hsel as [m1 [m2 [Hsel [Hm1 _]]]].
    apply filter_split in Hsel. destruct Hsel as [l1 [l2 [Hdf [Hl1 _]]]].
    exists l1, l2. repeat split; try assumption.
    intros r' Hr' Hev' Hloop' Hkey.
    apply (Hfirst r').
    + rewrite <- Hm1, <- Hl1. apply filter_In. split.
      * apply filter_In. split; [exact Hr' | apply String.eqb_eq; exact Hev'].
      * apply Z.eqb_eq. exact Hloop'.
    + apply same_group; congruence.
  - intros [before [after [Hdf [Hev [Hloop Hfirst]]]]].
    split; [intros [] |].
    exists (filter (fun r => phase_loop r =? 0)
                   (filter (fun r => (event r =? "start")%string) before)),
           (filter (fun r => phase_loop r =? 0)
                   (filter (fun r => (event r =? "start")%string) after)).
    split.
    + rewrite Hdf, filter_app. simpl.
      rewrite (proj2 (String.eqb_eq _ _) Hev).
      rewrite filter_app. simpl.
      rewrite (proj2 (Z.eqb_eq _ _) Hloop). reflexivity.
    + intros r' Hr' Hkey.
      apply filter_In in Hr'. destruct Hr' as [Hr' Hloop'].
      apply filter_In in Hr'. destruct Hr' as [Hr' Hev'].
      apply Z.eqb_eq in Hloop'. apply String.eqb_eq in Hev'.
      apply (Hfirst r' Hr' Hev' Hloop').
      apply same_group; congruence.
Qed.

Lemma end_rows_greatest (df : list LoopRow) (r : LoopRow) :
  In r (rtapp_phases_rows "end" df) ->
  forall r', In r' df -> event r' = "end" -> phase_key r' = phase_key r ->
             loop_counters_le r' r.
Proof.
  intros Hr r' Hr' Hev' Hkey.
  assert (Hev : event r = "end") by (apply rtapp_phases_rows_In in Hr; tauto).
  change (rtapp_phases_rows "end" df)
    with (stable_sort Time_leb
            (groupby_head1 []
               (stable_sort loops_geb
                  (filter (fun r => (event r =? "end")%string) df)))) in Hr.
  apply stable_sort_In in Hr. apply groupby_head1_first in Hr.
  destruct Hr as [_ [before [after [Hsorted Hfirst]]]].
  assert (Hin : In r' (before ++ r :: after)).
  { rewrite <- Hsorted. apply stable_sort_In. apply filter_In.
    split; [exact Hr' | apply String.eqb_eq; exact Hev']. }
  assert (Hord : StronglySorted (le_of loops_geb) (before ++ r :: after)).
  { rewrite <- Hsorted. apply stable_sort_sorted.
    - apply loops_geb_total.
    - apply loops_geb_trans. }
  apply in_app_or in Hin. destruct Hin as [Hin | [<- | Hin]].
  - exfalso. apply (Hfirst r' Hin). apply same_group; congruence.
  - unfold loop_counters_le. lia.
  - apply StronglySorted_app_inv in Hord. destruct Hord as [_ [Hord _]].
    inversion Hord as [| x l _ Hall]; subst.
    rewrite Forall_forall in Hall. apply loops_geb_spec. apply Hall. exact Hin.
Qed.

Lemma end_rows_cover (df : list LoopRow) (r' : LoopRow) :
  In r' df -> event r' = "end" ->
  exists r, In r (rtapp_phases_rows "end" df) /\ phase_key r = phase_key r'.
Proof.
  intros Hr' Hev'.
  destruct (groupby_head1_covers []
              (stable_sort loops_geb (filter (fun r => (event r =? "end")%string) df))
              r') as [r [Hr Hkey]].
  - apply stable_sort_In. apply filter_In.
    split; [exact Hr' | apply String.eqb_eq; exact Hev'].
  - intros [].
  - assert (Hin : In r (rtapp_phases_rows "end" df)).
    { change (rtapp_phases_rows "end" df)
        with (stable_sort Time_leb
                (groupby_head1 []
                   (stable_sort loops_geb
                      (filter (fun r => (event r =? "end")%string) df)))).
      apply stable_sort_In. exact Hr. }
    exists r. split; [exact Hin |].
    apply same_group; [| exact Hkey].
    apply rtapp_phases_rows_In in Hin. destruct Hin as [_ Hev]. congruence.
Qed.

(** C2, as the code has it: among the ``start`` rows the selection keeps,
    for every (comm, pid, phase) group, the first row with
    [phase_loop = 0] and no other; among the ``end`` rows it keeps, for
    every group, one row whose [(phase_loop, thread_loop)] is the
    greatest of the group; the markers are returned sorted by
    timestamp. *)
Theorem get_rtapp_phases_spec :
  forall (trace : Trace) (task : TaskArg) (loops : list LoopRow),
    df_rtapp_loop trace task = inr loops ->
    let starts := rtapp_phases_rows "start" loops in
    let ends := rtapp_phases_rows "end" loops in
    _get_rtapp_phases trace "start" task = inr (map marker_of starts)
    /\ _get_rtapp_phases trace "end" task = inr (map marker_of ends)
    /\ (forall r, In r starts <-> first_start_of_group loops r)
    /\ (forall r, In r ends ->
          In r loops /\ event r = "end"
          /\ forall r', In r' loops -> event r' = "end" ->
                        phase_key r' = phase_key r -> loop_counters_le r' r)
    /\ (forall r', In r' loops -> event r' = "end" ->
          exists r, In r ends /\ phase_key r = phase_key r')
    /\ NoDup (map phase_key starts)
    /\ NoDup (map phase_key ends)
    /\ StronglySorted (fun a b => Time a <= Time b) starts
    /\ StronglySorted (fun a b => Time a <= Time b) ends.
Proof.
  intros trace task loops Hloops starts ends. subst starts ends.
  unfold _get_rtapp_phases.
  rewrite !(requires_events_ok _ _ _ (df_rtapp_loop_events _ _ _ Hloops)).
  rewrite Hloops. simpl bind.
  split; [reflexivity |].
  split; [reflexivity |].
  split; [apply start_rows_first |].
  split.
  { intros r Hr. destruct (rtapp_phases_rows_In _ _ _ Hr) as [Hin Hev].
    split; [exact Hin |]. split; [exact Hev |].
    apply end_rows_greatest. exact Hr. }
  split; [apply end_rows_cover |].
  split; [apply rtapp_phases_rows_NoDup |].
  split; [apply rtapp_phases_rows_NoDup |].
  split; apply rtapp_phases_rows_sorted.
Qed.

(** * The sample traces *)

(** The sample tables.  Two phases that start at the same instant stop
    [sorted]; the truncated trace reports phase 0 from its first start to
    its last end and leaves the cut phase 1 out; a phase may start at the
    instant the previous one ends; and phases listed out of order come
    out sorted by start. *)
Lemma df_phases_samples :
  (df_rtapp_loop (loops_trace tied_loops) (TId task0) = inr tied_loops
   /\ df_phases (loops_trace tied_loops) (TId task0) = inl TypeError)
  /\ (df_rtapp_loop (loops_trace truncated_loops) (TId task0) = inr truncated_loops
      /\ df_phases (loops_trace truncated_loops) (TId task0)
         = inr [mkPhaseRow 10 0 50])
  /\ (df_rtapp_loop (loops_trace two_phase_loops) (TId task0) = inr two_phase_loops
      /\ df_phases (loops_trace two_phase_loops) (TId task0)
         = inr [mkPhaseRow 0 0 10; mkPhaseRow 10 1 15])
  /\ (df_rtapp_loop (loops_trace unordered_loops) (TId task0) = inr unordered_loops
      /\ df_phases (loops_trace unordered_loops) (TId task0)
         = inr [mkPhaseRow 0 0 10; mkPhaseRow 30 1 15]).
Proof.
  split; [| split; [| split]].
  - assert (Hloops : df_rtapp_loop (loops_trace tied_loops) (TId task0)
                     = inr tied_loops) by reflexivity.
    split; [exact Hloops |].
    destruct (df_phases_spec _ _ _ Hloops) as [_ [_ [_ [_ [_ Htied]]]]].
    apply Htied. intros Huntied.
    specialize (Huntied (mkPhaseRow 1 0 0) (mkPhaseRow 1 1 1)
                  (or_introl eq_refl) (or_intror (or_introl eq_refl)) eq_refl).
    discriminate.
  - assert (Hloops : df_rtapp_loop (loops_trace truncated_loops) (TId task0)
                     = inr truncated_loops) by reflexivity.
    split; [exact Hloops |].
    destruct (df_phases_spec _ _ _ Hloops) as [_ [_ [_ [_ [Hsorted _]]]]].
    assert (Huntied : no_tied_starts [mkPhaseRow 10 0 50]).
    { intros a b [<- | []] [<- | []] _. reflexivity. }
    destruct (Hsorted Huntied) as [out [Hout [_ [_ Hsame]]]].
    rewrite Hout, Hsame; [reflexivity |].
    unfold truncated_loops.
    repeat (constructor; [| repeat (constructor; [simpl; lia |]); constructor]).
    constructor.
  - assert (Hloops : df_rtapp_loop (loops_trace two_phase_loops) (TId task0)
                     = inr two_phase_loops) by reflexivity.
    split; [exact Hloops |].
    destruct (df_phases_spec _ _ _ Hloops) as [_ [_ [_ [_ [Hsorted _]]]]].
    assert (Huntied : no_tied_starts [mkPhaseRow 0 0 10; mkPhaseRow 10 1 15]).
    { intros a b [<- | [<- | []]] [<- | [<- | []]] Hidx;
        solve [reflexivity | discriminate Hidx]. }
    destruct (Hsorted Huntied) as [out [Hout [_ [_ Hsame]]]].
    rewrite Hout, Hsame; [reflexivity |].
    unfold two_phase_loops.
    repeat (constructor; [| repeat (constructor; [simpl; lia |]); constructor]).
    constructor.
  - assert (Hloops : df_rtapp_loop (loops_trace unordered_loops) (TId task0)
                     = inr unordered_loops) by reflexivity.
    split; [exact Hloops |].
    destruct (df_phases_spec _ _ _ Hloops) as [_ [_ [_ [_ [Hsorted _]]]]].
    assert (Huntied : no_tied_starts [mkPhaseRow 30 1 15; mkPhaseRow 0 0 10]).
    { intros a b [<- | [<- | []]] [<- | [<- | []]] Hidx;
        solve [reflexivity | discriminate Hidx]. }
    destruct (Hsorted Huntied) as [out [Hout [Hperm [Hord _]]]].
    rewrite Hout. f_equal.
    destruct (Permutation_length_2_inv Hperm) as [-> | ->]; [| reflexivity].
    exfalso. inversion Hord as [| x l _ Hall]; subst.
    inversion Hall as [| y l' Hle _]; subst. simpl in Hle. lia.
Defined.

(** C1: on the table [tied_loops] phase 0 starts and ends at the instant
    at which phase 1 starts, so both runs are left non-empty and their
    tuples [(1, {phase: 0, duration: 0})] and [(1, {phase: 1, duration: 1})]
    tie on the start; [sorted] then has to order the two dicts, and
    [df_phases] raises [TypeError] where the rows [(1, 0, 0)] and
    [(1, 1, 1)], sorted by start, were due. *)
Lemma df_phases_tied :
  df_phases (loops_trace tied_loops) (TId task0) = inl TypeError.
Proof. reflexivity. Qed.

(** Before the first phase there is nothing to fill from. *)
Lemma task_phase_at_before_first :
  task_phase_at (loops_trace truncated_loops) (TId task0) 5 = inl KeyError.
Proof. reflexivity. Qed.

(** Two starts with [phase_loop = 0] in one group: only the first is a
    marker, and the last end is the end marker. *)
Lemma get_rtapp_phases_repeated :
  df_rtapp_loop (loops_trace repeated_phase_loops) (TId task0)
  = inr repeated_phase_loops
  /\ _get_rtapp_phases (loops_trace repeated_phase_loops) "start" (TId task0)
     = inr [mkMarkerRow "task0" 100 0 1]
  /\ _get_rtapp_phases (loops_trace repeated_phase_loops) "end" (TId task0)
     = inr [mkMarkerRow "task0" 100 0 4].
Proof.
  assert (Hloops : df_rtapp_loop (loops_trace repeated_phase_loops) (TId task0)
                   = inr repeated_phase_loops) by reflexivity.
  split; [exact Hloops |].
  destruct (get_rtapp_phases_spec (loops_trace repeated_phase_loops) (TId task0)
              repeated_phase_loops Hloops) as [Hstart [Hend _]].
  split; [rewrite Hstart | rewrite Hend]; reflexivity.
Defined.

Lemma start_markers_keep_all_fails : ~ start_markers_keep_all.
Proof.
  intros Hall.
  assert (Hin : In (marker_of (loop_row 3 "start" 0 0 1))
                   [mkMarkerRow "task0" 100 0 1]).
  { apply (Hall (loops_trace repeated_phase_loops) (TId task0)
             repeated_phase_loops).
    - reflexivity.
    - reflexivity.
    - right. right. left. reflexivity.
    - reflexivity.
    - reflexivity. }
  destruct Hin as [Heq | []]. discriminate Heq.
Qed.

(** One ``clock_ref`` marker at trace time 1000 carrying 0. *)
Lemma rtapp_reftime_one :
  rtapp_main (main_trace one_clock_ref) = Some one_clock_ref
  /\ rtapp_reftime (main_trace one_clock_ref) = inr (mkRefTime 1000 0%float).
Proof.
  split; [reflexivity |].
  exact (rtapp_reftime_first (main_trace one_clock_ref) one_clock_ref
           (main_row 1000 "clock_ref" 0%float) [] eq_refl eq_refl).
Defined.

Lemma reftime_rejects_ambiguity_fails : ~ reftime_rejects_ambiguity.
Proof.
  intros Hreject.
  destruct (Hreject (main_trace two_clock_refs) two_clock_refs eq_refl) as [e He].
  - vm_compute. lia.
  - vm_compute in He. discriminate He.
Qed.

(** The windows [(0, 0, 10)] and [(1, 10, 25)]. *)
Lemma task_phase_at_two_phases :
  df_phases (loops_trace two_phase_loops) (TId task0)
  = inr ([mkPhaseRow 0 0 10] ++ [mkPhaseRow 10 1 15])
  /\ task_phase_at (loops_trace two_phase_loops) (TId task0) 5
     = inr (mkPhaseWindow 0 0 10)
  /\ task_phase_at (loops_trace two_phase_loops) (TId task0) 10
     = inr (mkPhaseWindow 1 10 25)
  /\ task_phase_at (loops_trace two_phase_loops) (TId task0) 30 = inl ValueError.
Proof.
  assert (Hdf : df_phases (loops_trace two_phase_loops) (TId task0)
                = inr ([mkPhaseRow 0 0 10] ++ [mkPhaseRow 10 1 15])) by reflexivity.
  assert (Hnodup : NoDup (map Index ([mkPhaseRow 0 0 10] ++ [mkPhaseRow 10 1 15]))).
  { simpl. constructor.
    - intros [Heq | []]. discriminate Heq.
    - constructor; [intros [] | constructor]. }
  split; [exact Hdf |].
  split; [| split].
  - apply (proj2 (task_phase_at_spec _ _ _ _ 5 Hdf Hnodup)
             ltac:(simpl; lia) (mkPhaseRow 0 0 10)).
    + left. reflexivity.
    + simpl. lia.
    + intros row' [<- | [<- | []]]; simpl; lia.
  - apply (proj2 (task_phase_at_spec _ _ _ _ 10 Hdf Hnodup)
             ltac:(simpl; lia) (mkPhaseRow 10 1 15)).
    + right. left. reflexivity.
    + simpl. lia.
    + intros row' [<- | [<- | []]]; simpl; lia.
  - apply (proj1 (task_phase_at_spec _ _ _ _ 30 Hdf Hnodup)). simpl. lia.
Defined.

(** Two start markers, at 10 and 70: the index 1 reads the last one, and
    so does the index 5; the index -4 reads the first one; the indices
    -3 and -5 raise. *)
Lemma get_task_phase_two_markers :
  _get_rtapp_phases (loops_trace truncated_loops) "start" (TId task0)
  = inr [mkMarkerRow "task0" 100 0 10; mkMarkerRow "task0" 100 1 70]
  /\ df_rtapp_phase_start (loops_trace truncated_loops) (TPid 100) 1 = inr 70
  /\ df_rtapp_phase_start (loops_trace truncated_loops) (TPid 100) 5 = inr 70
  /\ df_rtapp_phase_start (loops_trace truncated_loops) (TPid 100) (-4) = inr 10
  /\ df_rtapp_phase_start (loops_trace truncated_loops) (TPid 100) (-3)
     = inl IndexError
  /\ df_rtapp_phase_start (loops_trace truncated_loops) (TPid 100) (-5)
     = inl IndexError.
Proof.
  assert (Hdf : _get_rtapp_phases (loops_trace truncated_loops) "start" (TId task0)
                = inr [mkMarkerRow "task0" 100 0 10; mkMarkerRow "task0" 100 1 70])
    by reflexivity.
  split; [exact Hdf |].
  unfold df_rtapp_phase_start.
  split; [| split; [| split; [| split]]].
  - destruct (get_task_phase_positions (loops_trace truncated_loops) "start"
                (TPid 100) task0 _ 1 (or_introl eq_refl) eq_refl eq_refl Hdf)
      as [_ Hsome].
    destruct (Hsome ltac:(simpl; lia)) as [Hin _].
    rewrite Hin by (simpl; lia). reflexivity.
  - destruct (get_task_phase_positions (loops_trace truncated_loops) "start"
                (TPid 100) task0 _ 5 (or_introl eq_refl) eq_refl eq_refl Hdf)
      as [_ Hsome].
    destruct (Hsome ltac:(simpl; lia)) as [_ [Hclamp _]].
    rewrite Hclamp by (simpl; lia). reflexivity.
  - destruct (get_task_phase_positions (loops_trace truncated_loops) "start"
                (TPid 100) task0 _ (-4) (or_introl eq_refl) eq_refl eq_refl Hdf)
      as [_ Hsome].
    destruct (Hsome ltac:(simpl; lia)) as [_ [_ [_ [_ [Hwrap _]]]]].
    rewrite Hwrap by (simpl; lia). reflexivity.
  - destruct (get_task_phase_positions (loops_trace truncated_loops) "start"
                (TPid 100) task0 _ (-3) (or_introl eq_refl) eq_refl eq_refl Hdf)
      as [_ Hsome].
    destruct (Hsome ltac:(simpl; lia)) as [_ [_ [_ [Hnone _]]]].
    apply Hnone. reflexivity.
  - destruct (get_task_phase_positions (loops_trace truncated_loops) "start"
                (TPid 100) task0 _ (-5) (or_introl eq_refl) eq_refl eq_refl Hdf)
      as [_ Hsome].
    destruct (Hsome ltac:(simpl; lia)) as [_ [_ [_ [_ [_ Hnone]]]]].
    apply Hnone. simpl. lia.
Defined.

Lemma phase_index_rejects_overflow_fails : ~ phase_index_rejects_overflow.
Proof.
  intros Hreject.
  destruct (Hreject (loops_trace truncated_loops) (TPid 100) task0
              [mkMarkerRow "task0" 100 0 10; mkMarkerRow "task0" 100 1 70] 2
              eq_refl eq_refl) as [e He].
  - simpl. lia.
  - vm_compute in He. discriminate He.
Qed.

(** On the same two start markers and the single end marker, the index
    -1 and the index of the last marker agree. *)
Lemma phase_negative_index_last :
  df_rtapp_phases_start (loops_trace truncated_loops) (TId task0)
  = inr [mkMarkerRow "task0" 100 0 10; mkMarkerRow "task0" 100 1 70]
  /\ df_rtapp_phases_end (loops_trace truncated_loops) (TId task0)
     = inr [mkMarkerRow "task0" 100 0 60]
  /\ df_rtapp_phase_start (loops_trace truncated_loops) (TPid 100) (-1)
     = df_rtapp_phase_start (loops_trace truncated_loops) (TPid 100) 1
  /\ df_rtapp_phase_start (loops_trace truncated_loops) (TPid 100) (-1) = inr 70
  /\ df_rtapp_phase_end (loops_trace truncated_loops) (TPid 100) (-1)
     = df_rtapp_phase_end (loops_trace truncated_loops) (TPid 100) 0
  /\ df_rtapp_phase_end (loops_trace truncated_loops) (TPid 100) (-1) = inr 60.
Proof.
  assert (Hstarts : df_rtapp_phases_start (loops_trace truncated_loops) (TId task0)
                    = inr [mkMarkerRow "task0" 100 0 10; mkMarkerRow "task0" 100 1 70])
    by reflexivity.
  assert (Hends : df_rtapp_phases_end (loops_trace truncated_loops) (TId task0)
                  = inr [mkMarkerRow "task0" 100 0 60])
    by reflexivity.
  split; [exact Hstarts |]. split; [exact Hends |].
  destruct (phase_negative_index (loops_trace truncated_loops) (TPid 100) task0
              _ _ 1 eq_refl eq_refl Hstarts Hends) as [Hs He].
  destruct (Hs ltac:(simpl; lia)) as [Hs1 Hs2].
  destruct (He ltac:(simpl; lia)) as [He1 He2].
  split; [exact Hs1 |]. split; [exact Hs2 |]. split; [exact He1 | exact He2].
Defined.

(** The registry of the truncated trace is its single task. *)
Lemma rtapp_tasks_truncated :
  df_events_tasks (loops_trace truncated_loops) "rtapp_loop"
  = inr (task_columns truncated_loops)
  /\ exists tasks,
       rtapp_tasks (loops_trace truncated_loops) = inr tasks
       /\ StronglySorted TaskID_lt tasks
       /\ In task0 tasks.
Proof.
  assert (Hev : df_events_tasks (loops_trace truncated_loops) "rtapp_loop"
                = inr (task_columns truncated_loops)) by reflexivity.
  split; [exact Hev |].
  destruct (proj2 (rtapp_tasks_spec (loops_trace truncated_loops))) as [tasks Htasks].
  - exists "rtapp_loop", (task_columns truncated_loops).
    split; [| exact Hev]. right. right. left. reflexivity.
  - destruct Htasks as [Hret [Hsorted Hmem]].
    exists tasks. split; [exact Hret |]. split; [exact Hsorted |].
    apply Hmem. exists "rtapp_loop", (task_columns truncated_loops).
    split; [right; right; left; reflexivity |].
    split; [exact Hev | left; reflexivity].
Defined.



(** A pid that resolves outside the registry is refused; the task of the
    trace selects its rows. *)
Lemma task_filtered_sample :
  rtapp_tasks (loops_trace truncated_loops) = inr [task0]
  /\ _task_filtered (loops_trace truncated_loops) truncated_loops (TPid 7)
     = inl ValueError
  /\ _task_filtered (loops_trace truncated_loops) truncated_loops (TPid 100)
     = inr truncated_loops.
Proof.
  assert (Hreg : rtapp_tasks (loops_trace truncated_loops) = inr [task0])
    by reflexivity.
  split; [exact Hreg |]. split.
  - destruct (task_filtered_spec LoopRow _ (loops_trace truncated_loops)
                truncated_loops (TPid 7) (mkTaskID 7 "task0") [task0]
                eq_refl eq_refl Hreg) as [_ [Hout _]].
    apply Hout. intros [Heq | []]. discriminate Heq.
  - destruct (task_filtered_spec LoopRow _ (loops_trace truncated_loops)
                truncated_loops (TPid 100) task0 [task0]
                eq_refl eq_refl Hreg) as [_ [_ Hin]].
    rewrite Hin by (left; reflexivity). reflexivity.
Defined.

Lemma task_filter_rejects_unknown_fails : ~ task_filter_rejects_unknown.
Proof.
  intros Hreject.
  assert (Hraise : _task_filtered (loops_trace truncated_loops) truncated_loops (TPid 0)
                   = inl ValueError).
  { apply (Hreject (loops_trace truncated_loops) truncated_loops (TPid 0)
             (mkTaskID 0 "task0") [task0]).
    - discriminate.
    - reflexivity.
    - reflexivity.
    - intros [Heq | []]. discriminate Heq. }
  vm_compute in Hraise. discriminate Hraise.
Qed.

(** * Further properties of the analysis *)

(** ** The task filter and the registry *)

Lemma filter_twice {A : Type} (f : A -> bool) (l : list A) :
  filter f (filter f l) = filter f l.
Proof.
  induction l as [| a l IH]; simpl.
  - reflexivity.
  - destruct (f a) eqn:Hfa; simpl; [rewrite Hfa, IH |]; auto.
Qed.

(** X1: Filtering is idempotent: a table that was filtered for a task comes
    back unchanged when it is filtered for the same task again. *)
Theorem task_filtered_idempotent :
  forall (R : Type) (H : EventTable R) (trace : Trace) (df out : list R)
         (task : TaskArg),
    _task_filtered trace df task = inr out ->
    _task_filtered trace out task = inr out.
Proof.
  intros R H trace df out task. unfold _task_filtered.
  destruct (negb (truthy task)).
  - intros Hout. inversion Hout. reflexivity.
  - destruct (get_task_id trace task) as [e | t]; simpl; [discriminate |].
    destruct (rtapp_tasks trace) as [e | tasks]; simpl; [discriminate |].
    destruct (negb (existsb (TaskID_eqb t) tasks)); [discriminate |].
    intros Hout. inversion Hout. unfold df_filter_task_ids.
    rewrite filter_twice. reflexivity.
Qed.

Lemma task_filtered_idempotent_sample :
  _task_filtered (tasks_trace two_task_rows) two_task_rows (TId task1)
  = inr [mkTaskRow 6 "task1" 101 "start"; mkTaskRow 90 "task1" 101 "end"]
  /\ _task_filtered (tasks_trace two_task_rows)
       [mkTaskRow 6 "task1" 101 "start"; mkTaskRow 90 "task1" 101 "end"]
       (TId task1)
     = inr [mkTaskRow 6 "task1" 101 "start"; mkTaskRow 90 "task1" 101 "end"].
Proof.
  assert (Hout : _task_filtered (tasks_trace two_task_rows) two_task_rows (TId task1)
                 = inr [mkTaskRow 6 "task1" 101 "start";
                        mkTaskRow 90 "task1" 101 "end"]) by reflexivity.
  split; [exact Hout |].
  exact (task_filtered_idempotent TaskRow _ (tasks_trace two_task_rows)
           two_task_rows _ (TId task1) Hout).
Defined.

Lemma rtapp_tasks_covers (trace : Trace) (ev : string) (df : list TaskID) :
  In ev RTAPP_USERSPACE_EVENTS ->
  df_events_tasks trace ev = inr df ->
  exists tasks, rtapp_tasks trace = inr tasks /\ forall t, In t df -> In t tasks.
Proof.
  intros Hev Hdf. unfold rtapp_tasks, requires_one_event_of.
  replace (existsb (has_events trace) RTAPP_USERSPACE_EVENTS) with true.
  - eexists. split; [reflexivity |].
    intros t Ht. apply stable_sort_In. apply add_event_tasks_In.
    right. exists ev, df. auto.
  - symmetry. apply existsb_exists. exists ev. split; [exact Hev |].
    apply has_events_iff. eauto.
Qed.

(** X2: The registry covers the tables: filtering the table of an rt-app
    event for the task of one of its rows never raises and keeps that
    row, provided the resolver maps that task identity to itself. *)
Theorem task_filtered_own_row :
  forall (R : Type) (H : EventTable R) (trace : Trace) (ev : string)
         (df : list R) (r : R),
    In ev RTAPP_USERSPACE_EVENTS ->
    df_events_tasks trace ev = inr (task_columns df) ->
    In r df ->
    get_task_id trace (TId (mkTaskID (__pid r) (__comm r)))
    = inr (mkTaskID (__pid r) (__comm r)) ->
    exists out,
      _task_filtered trace df (TId (mkTaskID (__pid r) (__comm r))) = inr out
      /\ In r out
      /\ forall r', In r' out -> __pid r' = __pid r /\ __comm r' = __comm r.
Proof.
  intros R H trace ev df r Hev Hdf Hr Hres.
  destruct (rtapp_tasks_covers trace ev _ Hev Hdf) as [tasks [Htasks Hcover]].
  assert (Hin : In (mkTaskID (__pid r) (__comm r)) tasks).
  { apply Hcover. unfold task_columns. apply in_map_iff. exists r. auto. }
  unfold _task_filtered. simpl truthy. simpl negb. cbv iota.
  rewrite Hres, Htasks. simpl bind.
  rewrite (proj2 (existsb_TaskID _ _) Hin). simpl negb. cbv iota.
  eexists. split; [reflexivity |].
  rewrite df_filter_task_ids_one. simpl pid. simpl comm. split.
  - apply filter_In. split; [exact Hr |].
    rewrite Z.eqb_refl, String.eqb_refl. reflexivity.
  - intros r' Hr'. apply filter_In in Hr'. destruct Hr' as [_ Hmatch].
    apply andb_true_iff in Hmatch. destruct Hmatch as [Hp Hc].
    apply Z.eqb_eq in Hp. apply String.eqb_eq in Hc. auto.
Qed.

Lemma task_filtered_own_row_sample :
  exists out,
    _task_filtered (tasks_trace two_task_rows) two_task_rows (TId task1) = inr out
    /\ In (mkTaskRow 6 "task1" 101 "start") out
    /\ forall r', In r' out -> __pid r' = 101 /\ __comm r' = "task1".
Proof.
  exact (task_filtered_own_row TaskRow _ (tasks_trace two_task_rows) "rtapp_task"
           two_task_rows (mkTaskRow 6 "task1" 101 "start")
           (or_intror (or_introl eq_refl)) eq_refl
           (or_intror (or_introl eq_refl)) eq_refl).
Defined.

(** ** Windows of the run and of a task *)

Lemma iloc_head_inv {A : Type} (l : list A) (a : A) :
  iloc l 0 = inr a -> exists rest, l = a :: rest.
Proof.
  destruct l as [| b rest].
  - rewrite iloc_nil. discriminate.
  - rewrite iloc_first. intros Heq. inversion Heq. eauto.
Qed.

(** X3: [rtapp_window] returns the timestamps of the first ``start`` and of
    the first ``end`` row of the main-thread table, in table order; it
    raises [IndexError] when either kind of row is missing, and it does
    not compare the two instants. *)
Theorem rtapp_window_spec :
  forall (trace : Trace) (rows : list MainRow),
    rtapp_main trace = Some rows ->
    let starts := filter (fun r => (main_event r =? "start")%string) rows in
    let ends := filter (fun r => (main_event r =? "end")%string) rows in
    (starts = [] -> rtapp_window trace = inl IndexError)
    /\ (ends = [] -> rtapp_window trace = inl IndexError)
    /\ (forall s starts' e ends',
          starts = s :: starts' -> ends = e :: ends' ->
          rtapp_window trace = inr (Time s, Time e)).
Proof.
  intros trace rows Hrows starts ends.
  unfold rtapp_window, df_rtapp_main.
  rewrite !(requires_events_one trace "rtapp_main") by (eapply has_events_main; eauto).
  rewrite Hrows. simpl bind. fold starts. fold ends.
  split; [| split].
  - intros ->. reflexivity.
  - intros ->. destruct starts as [| s starts'].
    + reflexivity.
    + simpl map. rewrite iloc_first. reflexivity.
  - intros s starts' e ends' -> ->. simpl map. rewrite !iloc_first. reflexivity.
Qed.

(** A run whose ``end`` row comes first in the table: the window is
    returned as it is read, with its end before its start. *)
Lemma rtapp_window_sample :
  rtapp_main (main_trace [main_row 50 "end" nan; main_row 60 "start" nan])
  = Some [main_row 50 "end" nan; main_row 60 "start" nan]
  /\ rtapp_window (main_trace [main_row 50 "end" nan; main_row 60 "start" nan])
     = inr (60, 50).
Proof.
  split; [reflexivity |].
  destruct (rtapp_window_spec
              (main_trace [main_row 50 "end" nan; main_row 60 "start" nan])
              _ eq_refl) as [_ [_ Hboth]].
  exact (Hboth (main_row 60 "start" nan) [] (main_row 50 "end" nan) []
               eq_refl eq_refl).
Defined.

(** X4: [rtapp_reftime] without its marker: a trace without ``rtapp_main``
    events raises [MissingTraceEventError], while a main-thread table
    without any ``clock_ref`` row raises [IndexError]. *)
Theorem rtapp_reftime_missing :
  forall (trace : Trace),
    (rtapp_main trace = None -> rtapp_reftime trace = inl MissingTraceEventError)
    /\ (forall rows,
          rtapp_main trace = Some rows ->
          filter (fun r => (main_event r =? "clock_ref")%string) rows = [] ->
          rtapp_reftime trace = inl IndexError).
Proof.
  intros trace. split.
  - intros Hnone. unfold rtapp_reftime, requires_events, has_events, df_events_tasks.
    simpl. rewrite Hnone. reflexivity.
  - intros rows Hrows Hnone. unfold rtapp_reftime, df_rtapp_main.
    rewrite !(requires_events_one trace "rtapp_main")
      by (eapply has_events_main; eauto).
    rewrite Hrows. simpl bind. rewrite Hnone. reflexivity.
Qed.

Lemma rtapp_reftime_missing_sample :
  rtapp_reftime (loops_trace truncated_loops) = inl MissingTraceEventError
  /\ rtapp_reftime (main_trace [main_row 900 "start" nan]) = inl IndexError.
Proof.
  split.
  - exact (proj1 (rtapp_reftime_missing (loops_trace truncated_loops)) eq_refl).
  - exact (proj2 (rtapp_reftime_missing (main_trace [main_row 900 "start" nan]))
             _ eq_refl eq_refl).
Defined.

Lemma df_rtapp_task_rows (trace : Trace) (task : TaskArg) (t : TaskID)
    (rows task_df : list TaskRow) :
  rtapp_task trace = Some rows ->
  truthy task = true ->
  get_task_id trace task = inr t ->
  df_rtapp_task trace task = inr task_df ->
  task_df = filter (fun r => (__pid r =? pid t) && (__comm r =? comm t)%string) rows.
Proof.
  intros Hrows Htruthy Hres Hdf. unfold df_rtapp_task in Hdf.
  apply requires_events_inv in Hdf. destruct Hdf as [_ Hdf].
  rewrite Hrows in Hdf. simpl bind in Hdf.
  unfold _task_filtered in Hdf. rewrite Htruthy, Hres in Hdf. simpl in Hdf.
  destruct (rtapp_tasks trace) as [e | tasks]; simpl in Hdf; [discriminate |].
  destruct (existsb (TaskID_eqb t) tasks); simpl in Hdf; [| discriminate].
  rewrite df_filter_task_ids_one in Hdf. inversion Hdf. reflexivity.
Qed.

(** X5: The window of a task is made of that task's own markers: when
    [task_window] returns for a truthy task, its two instants are the
    timestamps of a ``start`` row and of an ``end`` row of the
    ``rtapp_task`` table that carry the pid and the name the task
    resolves to. *)
Theorem task_window_own_markers :
  forall (trace : Trace) (rows : list TaskRow) (task : TaskArg) (t : TaskID)
         (start_time end_time : Z),
    rtapp_task trace = Some rows ->
    truthy task = true ->
    get_task_id trace task = inr t ->
    task_window trace task = inr (start_time, end_time) ->
    exists s e,
      In s rows /\ In e rows
      /\ task_event s = "start" /\ task_event e = "end"
      /\ __pid s = pid t /\ __comm s = comm t
      /\ __pid e = pid t /\ __comm e = comm t
      /\ Time s = start_time /\ Time e = end_time.
Proof.
  intros trace rows task t start_time end_time Hrows Htruthy Hres Hwin.
  unfold task_window in Hwin.
  apply requires_events_inv in Hwin. destruct Hwin as [_ Hwin].
  apply bind_inv in Hwin. destruct Hwin as [task_df [Hdf Hwin]].
  apply bind_inv in Hwin. destruct Hwin as [a [Hstart Hwin]].
  apply bind_inv in Hwin. destruct Hwin as [b [Hend Hwin]].
  inversion Hwin; subst. clear Hwin.
  rewrite (df_rtapp_task_rows trace task t rows task_df Hrows Htruthy Hres Hdf)
    in Hstart, Hend.
  apply iloc_head_inv in Hstart. destruct Hstart as [srest Hstart].
  apply iloc_head_inv in Hend. destruct Hend as [erest Hend].
  assert (Hs : In start_time
                 (map Time (filter (fun r => (task_event r =? "start")%string)
                    (filter (fun r => (__pid r =? pid t) && (__comm r =? comm t)%string)
                            rows)))) by (rewrite Hstart; left; reflexivity).
  assert (He : In end_time
                 (map Time (filter (fun r => (task_event r =? "end")%string)
                    (filter (fun r => (__pid r =? pid t) && (__comm r =? comm t)%string)
                            rows)))) by (rewrite Hend; left; reflexivity).
  apply in_map_iff in Hs. destruct Hs as [s [Hts Hs]].
  apply in_map_iff in He. destruct He as [e [Hte He]].
  apply filter_In in Hs. destruct Hs as [Hs Hsev].
  apply filter_In in Hs. destruct Hs as [Hs Hsm].
  apply filter_In in He. destruct He as [He Heev].
  apply filter_In in He. destruct He as [He Hem].
  apply andb_true_iff in Hsm. destruct Hsm as [Hsp Hsc].
  apply andb_true_iff in Hem. destruct Hem as [Hep Hec].
  apply Z.eqb_eq in Hsp, Hep. apply String.eqb_eq in Hsc, Hec, Hsev, Heev.
  exists s, e. repeat split; assumption.
Qed.

Lemma task_window_sample :
  task_window (tasks_trace two_task_rows) (TId task1) = inr (6, 90)
  /\ exists s e,
       In s two_task_rows /\ In e two_task_rows
       /\ task_event s = "start" /\ task_event e = "end"
       /\ __pid s = 101 /\ __comm s = "task1"
       /\ __pid e = 101 /\ __comm e = "task1"
       /\ Time s = 6 /\ Time e = 90.
Proof.
  assert (Hwin : task_window (tasks_trace two_task_rows) (TId task1) = inr (6, 90))
    by reflexivity.
  split; [exact Hwin |].
  exact (task_window_own_markers (tasks_trace two_task_rows) two_task_rows
           (TId task1) task1 6 90 eq_refl eq_refl eq_refl Hwin).
Defined.

(** ** Bounds of the reported phases *)

Lemma last_cons_default {A : Type} (a : A) (l : list A) :
  last (a :: l) a = last l a.
Proof. destruct l; reflexivity. Qed.

Lemma last_In {A : Type} (a : A) (l : list A) : In (last l a) (a :: l).
Proof.
  assert (Hne : a :: l <> []) by discriminate.
  rewrite (app_removelast_last a Hne).
  rewrite last_cons_default. apply in_or_app. right. left. reflexivity.
Qed.

Lemma run_interval_bounds (run : Z * list LoopRow) (row : PhaseRow) :
  In row (run_interval run) ->
  exists first rest,
    drop_trailing_start (drop_leading_end (snd run)) = first :: rest
    /\ row = mkPhaseRow (Time first) (fst run)
                        (Time (last rest first) - Time first).
Proof.
  unfold run_interval.
  destruct (drop_trailing_start (drop_leading_end (snd run))) as [| first rest].
  - intros [].
  - intros [<- | []]. exists first, rest. auto.
Qed.

Lemma trimmed_In (run : list LoopRow) (r : LoopRow) :
  In r (drop_trailing_start (drop_leading_end run)) -> In r run.
Proof. intros Hin. apply drop_leading_end_In, drop_trailing_start_In. exact Hin. Qed.

Lemma sorted_tuples_In (l s : list (Z * PhaseDict)) (z : Z * PhaseDict) :
  sorted_tuples l = inr s -> In z s -> In z l.
Proof.
  revert s. induction l as [| x l IH]; simpl; intros s Hs Hz.
  - inversion Hs; subst. exact Hz.
  - destruct (sorted_tuples l) as [e | s0] eqn:Hrec; simpl in Hs; [discriminate |].
    destruct (insert_tuple_sorted x s0 s (sorted_tuples_sorted l s0 Hrec) Hs)
      as [_ Hin].
    destruct (Hin z Hz) as [-> | Hz0]; [left; reflexivity | right].
    apply (IH s0); auto.
Qed.

(** The rows of [df_phases] once the loop table is known: the intervals
    of the runs, reordered by [sorted]. *)
Lemma df_phases_rows (trace : Trace) (task : TaskArg) (loops : list LoopRow)
    (out : list PhaseRow) (row : PhaseRow) :
  df_rtapp_loop trace task = inr loops ->
  df_phases trace task = inr out ->
  In row out ->
  In row (flat_map run_interval (df_split_signals loops)).
Proof.
  intros Hloops Hout Hrow. unfold df_phases in Hout.
  apply requires_events_inv in Hout. destruct Hout as [_ Hout].
  rewrite Hloops in Hout. simpl bind in Hout.
  destruct (durations_of_runs (df_split_signals loops)) as [durations [Hmap Hrows]].
  rewrite Hmap in Hout. simpl bind in Hout.
  apply bind_inv in Hout. destruct Hout as [s [Hs Hout]].
  inversion Hout; subst. clear Hout.
  apply in_map_iff in Hrow. destruct Hrow as [z [<- Hz]].
  rewrite <- Hrows. apply in_map. eapply sorted_tuples_In; eauto.
Qed.

(** X6: [df_phases] reports only what the trace holds: the start of every
    reported phase is the timestamp of a loop row of the task that carries
    the reported phase number, and its duration is the timestamp of a
    second such row minus that start. *)
Theorem df_phases_bounds_from_rows :
  forall (trace : Trace) (task : TaskArg) (loops : list LoopRow)
         (out : list PhaseRow) (row : PhaseRow),
    df_rtapp_loop trace task = inr loops ->
    df_phases trace task = inr out ->
    In row out ->
    exists first last_,
      In first loops /\ In last_ loops
      /\ phase first = row_phase row /\ phase last_ = row_phase row
      /\ Index row = Time first
      /\ duration row = Time last_ - Time first.
Proof.
  intros trace task loops out row Hloops Hout Hrow.
  pose proof (df_phases_rows trace task loops out row Hloops Hout Hrow) as Hin.
  apply in_flat_map in Hin. destruct Hin as [run [Hrun Hin]].
  destruct (run_interval_bounds run row Hin) as [first [rest [Htrim ->]]].
  assert (Hfirst : In first (snd run)).
  { apply trimmed_In. rewrite Htrim. left. reflexivity. }
  assert (Hlast : In (last rest first) (snd run)).
  { apply trimmed_In. rewrite Htrim. apply last_In. }
  assert (Hsub : forall r, In r (snd run) -> In r loops /\ phase r = fst run).
  { intros r Hr. split.
    - rewrite <- (df_split_signals_concat loops). apply in_concat.
      exists (snd run). split; [apply in_map; exact Hrun | exact Hr].
    - pose proof (df_split_signals_runs loops) as Hruns.
      rewrite Forall_forall in Hruns. destruct (Hruns run Hrun) as [_ Hphase].
      rewrite Forall_forall in Hphase. apply Hphase. exact Hr. }
  destruct (Hsub _ Hfirst) as [Hf1 Hf2]. destruct (Hsub _ Hlast) as [Hl1 Hl2].
  exists first, (last rest first). simpl.
  repeat split; assumption.
Qed.

Lemma df_phases_bounds_truncated :
  exists first last_,
    In first truncated_loops /\ In last_ truncated_loops
    /\ phase first = 0 /\ phase last_ = 0
    /\ 10 = Time first /\ 50 = Time last_ - Time first.
Proof.
  exact (df_phases_bounds_from_rows (loops_trace truncated_loops) (TId task0)
           truncated_loops [mkPhaseRow 10 0 50] (mkPhaseRow 10 0 50)
           eq_refl eq_refl (or_introl eq_refl)).
Defined.

(** ** The sequence of phase windows *)

Lemma nth_error_enumerate {A : Type} (l : list A) (k i : nat) (a : A) :
  nth_error l i = Some a ->
  nth_error (combine (seq k (length l)) l) i = Some ((k + i)%nat, a).
Proof.
  revert k i. induction l as [| b l IH]; intros k i Hnth.
  - destruct i; discriminate.
  - destruct i as [| i]; simpl in *.
    + inversion Hnth. rewrite Nat.add_0_r. reflexivity.
    + rewrite (IH (S k) i Hnth). f_equal. f_equal. lia.
Qed.

Lemma enumerate_snd {A : Type} (l : list A) (k : nat) :
  map snd (combine (seq k (length l)) l) = l.
Proof.
  revert k. induction l as [| a l IH]; intros k; simpl.
  - reflexivity.
  - rewrite IH. reflexivity.
Qed.

Lemma task_phase_windows_unfold (trace : Trace) (task : TaskArg) (df : list PhaseRow) :
  df_phases trace task = inr df ->
  task_phase_windows trace task
  = inr (map (fun idx_phase =>
                mkPhaseWindow (Z.of_nat (fst idx_phase))
                              (Index (snd idx_phase))
                              (Index (snd idx_phase) + duration (snd idx_phase)))
             (enumerate df)).
Proof.
  intros Hdf.
  assert (Hevents : forallb (has_events trace) loop_events = true).
  { unfold df_phases in Hdf. apply requires_events_inv in Hdf. tauto. }
  unfold task_phase_windows. rewrite (requires_events_ok _ _ _ Hevents).
  rewrite Hdf. reflexivity.
Qed.

(** X7: [task_phase_windows] yields one window per row of [df_phases], in
    the same order: the window at position [i] has the id [i] (a
    position, not the phase number of the row) and the bounds
    [(start, start + duration)] of the row; the starts of the sequence
    never decrease. *)
Theorem task_phase_windows_spec :
  forall (trace : Trace) (task : TaskArg) (df : list PhaseRow),
    df_phases trace task = inr df ->
    exists windows,
      task_phase_windows trace task = inr windows
      /\ length windows = length df
      /\ (forall i row,
            nth_error df i = Some row ->
            nth_error windows i
            = Some (mkPhaseWindow (Z.of_nat i) (Index row)
                                  (Index row + duration row)))
      /\ StronglySorted Z.le (map start windows).
Proof.
  intros trace task df Hdf.
  eexists. split; [apply task_phase_windows_unfold; exact Hdf |].
  split; [| split].
  - unfold enumerate. rewrite length_map, length_combine, length_seq.
    apply Nat.min_id.
  - intros i row Hnth. unfold enumerate.
    rewrite nth_error_map, (nth_error_enumerate df 0 i row Hnth). reflexivity.
  - rewrite map_map. simpl.
    replace (map (fun x : nat * PhaseRow => Index (snd x)) (enumerate df))
      with (map Index (map snd (enumerate df))) by (rewrite map_map; reflexivity).
    unfold enumerate. rewrite enumerate_snd.
    eapply df_phases_sorted; eauto.
Qed.

Lemma task_phase_windows_two_phases :
  df_phases (loops_trace two_phase_loops) (TId task0)
  = inr [mkPhaseRow 0 0 10; mkPhaseRow 10 1 15]
  /\ exists windows,
       task_phase_windows (loops_trace two_phase_loops) (TId task0) = inr windows
       /\ length windows = 2%nat
       /\ nth_error windows 1 = Some (mkPhaseWindow 1 10 25).
Proof.
  assert (Hdf : df_phases (loops_trace two_phase_loops) (TId task0)
                = inr [mkPhaseRow 0 0 10; mkPhaseRow 10 1 15]) by reflexivity.
  split; [exact Hdf |].
  destruct (task_phase_windows_spec _ _ _ Hdf) as [windows [Hw [Hlen [Hnth _]]]].
  exists windows. split; [exact Hw |]. split; [exact Hlen |].
  exact (Hnth 1%nat (mkPhaseRow 10 1 15) eq_refl).
Defined.

(** ** Soundness of the point lookup *)

Lemma iloc_nonneg_inv {A : Type} (l : list A) (i : Z) (a : A) :
  0 <= i -> iloc l i = inr a -> nth_error l (Z.to_nat i) = Some a.
Proof.
  intros Hi. rewrite (iloc_unfold l i i).
  - destruct ((i <? 0) || (Z.of_nat (length l) <=? i)); [discriminate |].
    destruct (nth_error l (Z.to_nat i)); [| discriminate].
    intros Heq. inversion Heq. reflexivity.
  - replace (i <? 0) with false by (symmetry; apply Z.ltb_ge; lia). reflexivity.
Qed.

Lemma get_loc_ffill_inv (index : list Z) (key i : Z) :
  get_loc_ffill index key = inr i ->
  exists n, length (filter (fun t => t <=? key) index) = S n /\ i = Z.of_nat n.
Proof.
  unfold get_loc_ffill.
  destruct (negb (is_unique index)); [discriminate |].
  destruct (negb (is_monotonic_increasing index)); [discriminate |].
  destruct (filter (fun t => t <=? key) index) as [| t pad]; [discriminate |].
  intros Heq. exists (length pad). split; [reflexivity |].
  assert (Hi : Z.of_nat (length (t :: pad)) - 1 = i)
    by (unfold ret in Heq; congruence).
  rewrite <- Hi. change (length (t :: pad)) with (S (length pad)). lia.
Qed.

Lemma sorted_filter_prefix (l : list Z) (key : Z) :
  StronglySorted Z.le l ->
  filter (fun t => t <=? key) l
  = firstn (length (filter (fun t => t <=? key) l)) l.
Proof.
  induction 1 as [| a l Hs IH Hall]; simpl.
  - reflexivity.
  - destruct (Z.leb_spec a key) as [Hle | Hgt].
    + simpl. f_equal. exact IH.
    + rewrite filter_none; [reflexivity |].
      intros x Hx. rewrite Forall_forall in Hall. specialize (Hall x Hx).
      apply Z.leb_gt. lia.
Qed.

Lemma nth_error_in_firstn {A : Type} (l : list A) (n : nat) (x : A) :
  nth_error l n = Some x -> In x (firstn (S n) l).
Proof.
  revert n. induction l as [| a l IH]; intros [| n] Hnth; simpl in *;
    try discriminate.
  - inversion Hnth. left. reflexivity.
  - right. apply IH. exact Hnth.
Qed.

Lemma sorted_prefix_bound (l : list Z) (n : nat) (x : Z) :
  StronglySorted Z.le l ->
  nth_error l n = Some x ->
  forall y, In y (firstn (S n) l) -> y <= x.
Proof.
  intros Hs. revert n. induction Hs as [| a l Hs IH Hall]; intros [| n] Hnth y Hy;
    simpl in *; try discriminate.
  - inversion Hnth; subst. destruct Hy as [<- | Hy]; [lia |].
    destruct l; destruct Hy.
  - destruct Hy as [<- | Hy].
    + rewrite Forall_forall in Hall. apply Hall. eapply nth_error_In; eauto.
    + eapply IH; eauto.
Qed.

(** X9: Whatever [task_phase_at] returns is the floor entry of the phase
    table: the returned window is that of a row of [df_phases] whose
    start is not after the timestamp and is the greatest such start; the
    window may end before the timestamp when the timestamp falls in a
    gap between two phases. *)
Theorem task_phase_at_sound :
  forall (trace : Trace) (task : TaskArg) (timestamp : Z) (w : PhaseWindow),
    task_phase_at trace task timestamp = inr w ->
    exists df row,
      df_phases trace task = inr df
      /\ In row df
      /\ w = mkPhaseWindow (row_phase row) (Index row) (Index row + duration row)
      /\ start w <= timestamp
      /\ forall row', In row' df -> Index row' <= timestamp ->
                      Index row' <= Index row.
Proof.
  intros trace task timestamp w Hw. unfold task_phase_at in Hw.
  apply requires_events_inv in Hw. destruct Hw as [_ Hw].
  apply bind_inv in Hw. destruct Hw as [df [Hdf Hw]].
  apply bind_inv in Hw. destruct Hw as [last_row [_ Hw]].
  simpl in Hw.
  destruct (timestamp >? Index last_row + duration last_row); [discriminate |].
  apply bind_inv in Hw. destruct Hw as [i [Hloc Hw]].
  apply bind_inv in Hw. destruct Hw as [row [Hrow Hw]].
  simpl in Hw. inversion Hw; subst. clear Hw.
  destruct (get_loc_ffill_inv _ _ _ Hloc) as [n [Hlen ->]].
  apply iloc_nonneg_inv in Hrow; [| lia]. rewrite Nat2Z.id in Hrow.
  pose proof (df_phases_sorted _ _ _ Hdf) as Hsorted.
  pose proof (sorted_filter_prefix _ timestamp Hsorted) as Hprefix.
  rewrite Hlen in Hprefix.
  assert (Hidx : nth_error (map Index df) n = Some (Index row)).
  { rewrite nth_error_map, Hrow. reflexivity. }
  exists df, row. split; [exact Hdf |].
  split; [eapply nth_error_In; eauto |].
  split; [reflexivity |]. split.
  - simpl. apply nth_error_in_firstn in Hidx. rewrite <- Hprefix in Hidx.
    apply filter_In in Hidx. destruct Hidx as [_ Hle]. apply Z.leb_le. exact Hle.
  - intros row' Hrow' Hle.
    apply (sorted_prefix_bound _ n _ Hsorted Hidx).
    rewrite <- Hprefix. apply filter_In. split.
    + apply in_map. exact Hrow'.
    + apply Z.leb_le. exact Hle.
Qed.

(** A timestamp in the gap after the first phase resolves to that
    phase, which ended before it. *)
Lemma task_phase_at_gap :
  task_phase_at
    (loops_trace [ loop_row 0 "start" 0 0 0; loop_row 10 "end" 0 0 0;
                   loop_row 20 "start" 1 0 1; loop_row 30 "end" 1 0 1 ])
    (TId task0) 15
  = inr (mkPhaseWindow 0 0 10)
  /\ exists df row,
       In row df
       /\ mkPhaseWindow 0 0 10
          = mkPhaseWindow (row_phase row) (Index row) (Index row + duration row)
       /\ 0 <= 15.
Proof.
  assert (Hw : task_phase_at
                 (loops_trace [ loop_row 0 "start" 0 0 0; loop_row 10 "end" 0 0 0;
                                loop_row 20 "start" 1 0 1; loop_row 30 "end" 1 0 1 ])
                 (TId task0) 15
               = inr (mkPhaseWindow 0 0 10)) by reflexivity.
  split; [exact Hw |].
  destruct (task_phase_at_sound _ _ _ _ Hw) as [df [row [_ [Hin [Heq [Hle _]]]]]].
  exists df, row. split; [exact Hin |]. split; [exact Heq | exact Hle].
Defined.

(** ** The window of one phase *)

(** X10: [task_phase_window] pairs two independent lookups: for an index
    [i >= 0] its id is [i] as given, its start is the start marker at
    position [min i (Ns - 1)] and its end is the end marker at position
    [min i (Ne - 1)], where [Ns] and [Ne] count the start and the end
    markers of the task.  When a phase has started and not ended the two
    positions differ, and the window can end before it starts. *)
Theorem task_phase_window_spec :
  forall (trace : Trace) (task : TaskArg) (t : TaskID)
         (starts ends : list MarkerRow) (i : Z),
    get_task_id trace task = inr t ->
    get_task_id trace (TId t) = inr t ->
    df_rtapp_phases_start trace (TId t) = inr starts ->
    df_rtapp_phases_end trace (TId t) = inr ends ->
    0 < Z.of_nat (length starts) ->
    0 < Z.of_nat (length ends) ->
    0 <= i ->
    task_phase_window trace task i
    = inr (mkPhaseWindow i
             (nth (Z.to_nat (Z.min i (Z.of_nat (length starts) - 1)))
                  (map marker_Time starts) 0)
             (nth (Z.to_nat (Z.min i (Z.of_nat (length ends) - 1)))
                  (map marker_Time ends) 0)).
Proof.
  intros trace task t starts ends i Htask Hres Hstarts Hends Hns Hne Hi.
  unfold df_rtapp_phases_start in Hstarts. unfold df_rtapp_phases_end in Hends.
  destruct (requires_events_inv _ _ _ _ Hstarts) as [Hevents Hstarts'].
  destruct (requires_events_inv _ _ _ _ Hends) as [_ Hends'].
  unfold task_phase_window, df_rtapp_phase_start, df_rtapp_phase_end.
  rewrite !(requires_events_ok trace loop_events) by exact Hevents.
  rewrite (get_task_phase_at trace "start" task t starts i
             (Z.min i (Z.of_nat (length starts) - 1))); auto; try lia.
  rewrite (get_task_phase_at trace "end" task t ends i
             (Z.min i (Z.of_nat (length ends) - 1))); auto; lia.
Qed.

(** The truncated trace has start markers at 10 and 70 and one end
    marker at 60: the window of phase 1 runs from 70 to 60. *)
Lemma task_phase_window_truncated :
  task_phase_window (loops_trace truncated_loops) (TPid 100) 1
  = inr (mkPhaseWindow 1 70 60).
Proof.
  exact (task_phase_window_spec (loops_trace truncated_loops) (TPid 100) task0
           [mkMarkerRow "task0" 100 0 10; mkMarkerRow "task0" 100 1 70]
           [mkMarkerRow "task0" 100 0 60] 1
           eq_refl eq_refl eq_refl eq_refl eq_refl eq_refl
           ltac:(discriminate)).
Defined.

(** ** Statistics of one task *)

Lemma filter_map_commute {A B : Type} (f : A -> B) (g : B -> bool) (l : list A) :
  filter g (map f l) = map f (filter (fun a => g (f a)) l).
Proof.
  induction l as [| a l IH]; simpl.
  - reflexivity.
  - destruct (g (f a)); simpl; rewrite IH; reflexivity.
Qed.

(** X11: Filtering and the derived column commute: the statistics of a task
    are the ``rtapp_stats`` rows of that (pid, name), in their order and
    unchanged, each with the performance index of its own counters (the
    binary64 quotient of [slack] by the [int64] difference of [c_period]
    and [c_run]). *)
Theorem df_rtapp_stats_of_task :
  forall (trace : Trace) (raw : list StatsRow) (task : TaskArg) (t : TaskID)
         (tasks : list TaskID),
    rtapp_stats trace = Some raw ->
    truthy task = true ->
    get_task_id trace task = inr t ->
    rtapp_tasks trace = inr tasks ->
    In t tasks ->
    exists out,
      df_rtapp_stats trace task = inr out
      /\ map stats_columns out
         = filter (fun r => (stats_pid r =? pid t) && (stats_comm r =? comm t)%string)
                  raw
      /\ forall o, In o out ->
           perf_index o
           = PrimFloat.div (float_of_Z (slack (stats_columns o)))
                           (float_of_Z (int64 (c_period (stats_columns o)
                                               - c_run (stats_columns o)))).
Proof.
  intros trace raw task t tasks Hraw Htruthy Hres Htasks Hin.
  unfold df_rtapp_stats, _get_stats.
  rewrite !(requires_events_one trace "rtapp_stats")
    by (eapply has_events_stats; eauto).
  rewrite Hraw. simpl bind.
  unfold _task_filtered. rewrite Htruthy, Hres, Htasks. simpl bind.
  rewrite (proj2 (existsb_TaskID _ _) Hin). simpl negb. cbv iota.
  eexists. split; [reflexivity |].
  rewrite df_filter_task_ids_one. rewrite filter_map_commute. split.
  - rewrite map_map. simpl. apply map_id.
  - intros o Ho. apply in_map_iff in Ho. destruct Ho as [r [<- _]]. reflexivity.
Qed.

Lemma df_rtapp_stats_of_task_sample :
  exists out,
    df_rtapp_stats (stats_trace two_task_stats) (TPid 100) = inr out
    /\ map stats_columns out
       = [ mkStatsRow 1 "task0" 100 5 10 20 3;
           mkStatsRow 3 "task0" 100 (-4) 12 20 2 ].
Proof.
  destruct (df_rtapp_stats_of_task (stats_trace two_task_stats) two_task_stats
              (TPid 100) task0 [task0; task1] eq_refl eq_refl eq_refl eq_refl
              (or_introl eq_refl)) as [out [Hout [Hcols _]]].
  exists out. split; [exact Hout | exact Hcols].
Defined.

(** ** Order of the indexed access *)

Lemma StronglySorted_map {A B : Type} (f : A -> B) (R : B -> B -> Prop) (l : list A) :
  StronglySorted (fun a b => R (f a) (f b)) l -> StronglySorted R (map f l).
Proof.
  induction 1 as [| a l Hs IH Hall]; simpl.
  - constructor.
  - constructor; [exact IH |].
    rewrite Forall_forall in *. intros b Hb.
    apply in_map_iff in Hb. destruct Hb as [x [<- Hx]]. apply Hall. exact Hx.
Qed.

Lemma get_rtapp_phases_sorted (trace : Trace) (ev : string) (task : TaskArg)
    (df : list MarkerRow) :
  _get_rtapp_phases trace ev task = inr df ->
  StronglySorted Z.le (map marker_Time df).
Proof.
  intros Hdf. unfold _get_rtapp_phases in Hdf.
  apply requires_events_inv in Hdf. destruct Hdf as [_ Hdf].
  apply bind_inv in Hdf. destruct Hdf as [loops [_ Hdf]].
  inversion Hdf; subst. clear Hdf.
  rewrite map_map. apply StronglySorted_map.
  apply (rtapp_phases_rows_sorted ev loops).
Qed.

Lemma sorted_nth_monotone (l : list Z) (i j : nat) :
  StronglySorted Z.le l ->
  (i <= j < length l)%nat ->
  nth i l 0 <= nth j l 0.
Proof.
  intros Hs. revert i j. induction Hs as [| a l Hs IH Hall]; intros i j Hij.
  - simpl in Hij. lia.
  - destruct i as [| i], j as [| j]; simpl in *; try lia.
    + rewrite Forall_forall in Hall. apply Hall. apply nth_In. lia.
    + apply IH. lia.
Qed.

(** X12: Indexed access follows time: for indices [0 <= i <= j] the marker
    read at [i] is not later than the marker read at [j], for the start
    markers and for the end markers alike. *)
Theorem get_task_phase_monotone :
  forall (trace : Trace) (ev : string) (task : TaskArg) (t : TaskID)
         (df : list MarkerRow) (i j : Z),
    ev = "start" \/ ev = "end" ->
    get_task_id trace task = inr t ->
    get_task_id trace (TId t) = inr t ->
    _get_rtapp_phases trace ev (TId t) = inr df ->
    0 < Z.of_nat (length df) ->
    0 <= i <= j ->
    exists a b,
      _get_task_phase trace ev task i = inr a
      /\ _get_task_phase trace ev task j = inr b
      /\ a <= b.
Proof.
  intros trace ev task t df i j Hev Htask Hres Hdf Hlen Hij.
  exists (nth (Z.to_nat (Z.min i (Z.of_nat (length df) - 1))) (map marker_Time df) 0),
         (nth (Z.to_nat (Z.min j (Z.of_nat (length df) - 1))) (map marker_Time df) 0).
  split; [| split].
  - apply (get_task_phase_at trace ev task t df i); auto; lia.
  - apply (get_task_phase_at trace ev task t df j); auto; lia.
  - apply sorted_nth_monotone.
    + eapply get_rtapp_phases_sorted; eauto.
    + rewrite length_map. lia.
Qed.

Lemma get_task_phase_monotone_truncated :
  exists a b,
    _get_task_phase (loops_trace truncated_loops) "start" (TPid 100) 0 = inr a
    /\ _get_task_phase (loops_trace truncated_loops) "start" (TPid 100) 1 = inr b
    /\ a <= b.
Proof.
  assert (Hdf : _get_rtapp_phases (loops_trace truncated_loops) "start" (TId task0)
                = inr [mkMarkerRow "task0" 100 0 10; mkMarkerRow "task0" 100 1 70])
    by reflexivity.
  apply (get_task_phase_monotone (loops_trace truncated_loops) "start" (TPid 100)
           task0 _ 0 1 (or_introl eq_refl) eq_refl eq_refl Hdf).
  - reflexivity.
  - split; lia.
Defined.

(** ** Phases cut to a single event *)

Lemma run_in_concat {A : Type} (runs : list (Z * list A)) (run : Z * list A) :
  In run runs ->
  exists before after, concat (map snd runs) = before ++ snd run ++ after.
Proof.
  intros Hin. apply in_split in Hin. destruct Hin as [l1 [l2 ->]].
  exists (concat (map snd l1)), (concat (map snd l2)).
  rewrite map_app, concat_app. reflexivity.
Qed.

Lemma trim_single_event (r : LoopRow) :
  event r = "start" \/ event r = "end" ->
  drop_trailing_start (drop_leading_end [r]) = [].
Proof.
  intros [Hev | Hev]; unfold drop_leading_end, drop_trailing_start;
    rewrite Hev; simpl; [rewrite Hev |]; reflexivity.
Qed.

(** X13: A phase of which the loop table holds a single ``start`` or ``end``
    row is not reported by [df_phases]: the row is trimmed as a partial
    loop and its run is left empty. *)
Theorem df_phases_single_event_phase :
  forall (trace : Trace) (task : TaskArg) (before after : list LoopRow)
         (r : LoopRow) (out : list PhaseRow),
    df_rtapp_loop trace task = inr (before ++ r :: after) ->
    df_phases trace task = inr out ->
    event r = "start" \/ event r = "end" ->
    (forall x, In x (before ++ after) -> phase x <> phase r) ->
    forall row, In row out -> row_phase row <> phase r.
Proof.
  intros trace task before after r out Hloops Hout Hev Hothers row Hrow Hphase.
  pose proof (df_phases_rows trace task _ out row Hloops Hout Hrow) as Hin.
  apply in_flat_map in Hin. destruct Hin as [run [Hrun Hin]].
  destruct (run_interval_bounds run row Hin) as [first [rest [Htrim ->]]].
  simpl in Hphase.
  pose proof (df_split_signals_runs (before ++ r :: after)) as Hruns.
  rewrite Forall_forall in Hruns. destruct (Hruns run Hrun) as [Hne Hsame].
  destruct (run_in_concat _ run Hrun) as [A [B Hcat]].
  rewrite df_split_signals_concat in Hcat.
  set (f := fun x : LoopRow => phase x =? phase r).
  assert (Hleft : filter f (before ++ r :: after) = [r]).
  { rewrite filter_app. simpl. unfold f at 2. rewrite Z.eqb_refl.
    rewrite !filter_none; [reflexivity | |];
      intros x Hx; unfold f; apply Z.eqb_neq; apply Hothers; apply in_or_app; auto. }
  assert (Hright : filter f (before ++ r :: after)
                   = filter f A ++ snd run ++ filter f B).
  { rewrite Hcat, !filter_app. f_equal. f_equal.
    apply forallb_filter_id. apply forallb_forall. intros x Hx.
    unfold f. apply Z.eqb_eq. rewrite Forall_forall in Hsame.
    rewrite (Hsame x Hx). exact Hphase. }
  rewrite Hleft in Hright.
  assert (Hsingle : snd run = [r]).
  { destruct (filter f A) as [| a A'].
    - simpl in Hright. destruct (snd run) as [| x xs]; [contradiction |].
      simpl in Hright. inversion Hright as [[Hx Hrest]].
      symmetry in Hrest. apply app_eq_nil in Hrest. destruct Hrest as [-> _].
      reflexivity.
    - simpl in Hright. inversion Hright as [[Ha Hrest]].
      symmetry in Hrest. apply app_eq_nil in Hrest. destruct Hrest as [_ Hrest].
      apply app_eq_nil in Hrest. destruct Hrest as [Hrest _]. contradiction. }
  rewrite Hsingle, (trim_single_event r Hev) in Htrim. discriminate.
Qed.

(** Phase 1 of the truncated trace has its first ``start`` row only. *)
Lemma df_phases_single_event_truncated :
  df_phases (loops_trace truncated_loops) (TId task0) = inr [mkPhaseRow 10 0 50]
  /\ row_phase (mkPhaseRow 10 0 50) <> 1.
Proof.
  assert (Hout : df_phases (loops_trace truncated_loops) (TId task0)
                 = inr [mkPhaseRow 10 0 50]) by reflexivity.
  split; [exact Hout |].
  apply (df_phases_single_event_phase (loops_trace truncated_loops) (TId task0)
           [ loop_row 10 "start" 0 0 0; loop_row 20 "end" 0 0 0;
             loop_row 30 "start" 0 1 1; loop_row 40 "end" 0 1 1;
             loop_row 50 "start" 0 2 2; loop_row 60 "end" 0 2 2 ]
           [] (loop_row 70 "start" 1 0 3) [mkPhaseRow 10 0 50]).
  - reflexivity.
  - exact Hout.
  - left. reflexivity.
  - intros x Hx. rewrite app_nil_r in Hx. simpl in Hx.
    repeat (destruct Hx as [<- | Hx]; [discriminate |]). destruct Hx.
  - left. reflexivity.
Defined.

(** ** Log-file analysis *)

Lemma name_leb_spec (a b : string) :
  name_leb a b = true <-> a = b \/ String.ltb a b = true.
Proof.
  unfold name_leb. rewrite negb_true_iff. split.
  - intros Hnlt. destruct (string_dec a b) as [Heq | Hneq]; [auto | right].
    destruct (string_ltb_total a b Hneq) as [Hlt | Hgt]; [exact Hlt | congruence].
  - intros [-> | Hlt].
    + apply string_ltb_irrefl.
    + destruct (String.ltb b a) eqn:Hba; [| reflexivity].
      pose proof (string_ltb_trans _ _ _ Hlt Hba) as Hrefl.
      rewrite string_ltb_irrefl in Hrefl. discriminate.
Qed.

Lemma name_leb_total (a b : string) : name_leb a b = true \/ name_leb b a = true.
Proof.
  rewrite !name_leb_spec.
  destruct (string_dec a b) as [Heq | Hneq]; [auto |].
  destruct (string_ltb_total a b Hneq); auto.
Qed.

Lemma name_leb_trans (a b c : string) :
  name_leb a b = true -> name_leb b c = true -> name_leb a c = true.
Proof.
  rewrite !name_leb_spec.
  intros [-> | Hab] [-> | Hbc]; auto.
  right. eapply string_ltb_trans; eauto.
Qed.

Lemma mapM_inv {A B : Type} (f : A -> result B) (l : list A) (out : list B) :
  mapM f l = inr out -> Forall2 (fun a b => f a = inr b) l out.
Proof.
  revert out. induction l as [| a l IH]; simpl; intros out Hout.
  - inversion Hout. constructor.
  - destruct (f a) as [e | b] eqn:Hfa; simpl in Hout; [discriminate |].
    destruct (mapM f l) as [e | bs]; simpl in Hout; [discriminate |].
    inversion Hout; subst. constructor; [exact Hfa | apply IH; reflexivity].
Qed.

(** What [__init__] stores for an item of the mapping. *)
Lemma PerfAnalysis_items (read_csv : string -> result (list LogRow))
    (task_log_map : list (string * string)) (perf_data : list (string * PerfData)) :
  PerfAnalysis read_csv task_log_map = inr perf_data ->
  task_log_map <> []
  /\ Forall2 (fun item stored =>
                fst stored = fst item
                /\ logfile (snd stored) = snd item
                /\ _parse_df read_csv (snd item) = inr (df (snd stored)))
             task_log_map perf_data.
Proof.
  unfold PerfAnalysis. destruct task_log_map as [| item items] eqn:Hmap.
  - discriminate.
  - rewrite <- Hmap. intros Hout. split; [rewrite Hmap; discriminate |].
    replace (empty task_log_map) with false in Hout by (rewrite Hmap; reflexivity).
    apply mapM_inv in Hout. clear Hmap.
    induction Hout as [| a b l l' Hab Hrest IH]; constructor; [| exact IH].
    destruct (_parse_df read_csv (snd a)) as [e | d]; simpl in Hab; [discriminate |].
    inversion Hab. simpl. auto.
Qed.

Lemma perf_data_lookup (read_csv : string -> result (list LogRow))
    (task_log_map : list (string * string)) (perf_data : list (string * PerfData))
    (task : string) :
  Forall2 (fun item stored =>
             fst stored = fst item
             /\ logfile (snd stored) = snd item
             /\ _parse_df read_csv (snd item) = inr (df (snd stored)))
          task_log_map perf_data ->
  NoDup (map fst task_log_map) ->
  (forall log, In (task, log) task_log_map ->
     exists d, perf_data_getitem perf_data task = inr d
               /\ logfile d = log /\ _parse_df read_csv log = inr (df d))
  /\ (~ In task (map fst task_log_map) ->
      perf_data_getitem perf_data task = inl KeyError).
Proof.
  unfold perf_data_getitem.
  induction 1 as [| item stored items stored' [Hkey [Hlog Hparse]] Hrest IH];
    intros Hnodup.
  - split; [intros log [] | reflexivity].
  - inversion Hnodup as [| k ks Hnotin Hnodup']; subst.
    destruct (IH Hnodup') as [IHin IHout]. simpl find. rewrite Hkey.
    destruct (String.eqb_spec (fst item) task) as [Heq | Hneq].
    + split.
      * intros log [Hhead | Htail].
        -- exists (snd stored). rewrite Hhead in *. simpl in *. auto.
        -- exfalso. apply Hnotin. rewrite Heq.
           apply in_map_iff. exists (task, log). auto.
      * intros Hnot. exfalso. apply Hnot. left. exact Heq.
    + split.
      * intros log [Hhead | Htail].
        -- exfalso. apply Hneq. rewrite Hhead. reflexivity.
        -- apply IHin. exact Htail.
      * intros Hnot. apply IHout. intros Hin. apply Hnot. right. exact Hin.
Qed.

(** X14: A [PerfAnalysis] built from a non-empty mapping of task names to log
    files answers from what it stored: [get_log_file] gives back the log
    file of every task of the mapping and [get_df] the frame [_parse_df]
    made of it; a name outside the mapping raises [KeyError]; and [tasks]
    lists the names of the mapping in strictly increasing order. *)
Theorem PerfAnalysis_lookup :
  forall (read_csv : string -> result (list LogRow))
         (task_log_map : list (string * string))
         (perf_data : list (string * PerfData)),
    PerfAnalysis read_csv task_log_map = inr perf_data ->
    NoDup (map fst task_log_map) ->
    task_log_map <> []
    /\ (forall task log,
          In (task, log) task_log_map ->
          get_log_file perf_data task = inr log
          /\ get_df perf_data task = _parse_df read_csv log)
    /\ (forall task,
          ~ In task (map fst task_log_map) ->
          get_log_file perf_data task = inl KeyError
          /\ get_df perf_data task = inl KeyError)
    /\ StronglySorted (fun a b => String.ltb a b = true) (tasks perf_data)
    /\ (forall task, In task (tasks perf_data) <-> In task (map fst task_log_map)).
Proof.
  intros read_csv task_log_map perf_data Hinit Hnodup.
  destruct (PerfAnalysis_items _ _ _ Hinit) as [Hne Hitems].
  assert (Hkeys : map fst perf_data = map fst task_log_map).
  { clear Hnodup Hinit Hne.
    induction Hitems as [| a b l l' [Hk _] _ IH]; simpl; [reflexivity |].
    rewrite Hk, IH. reflexivity. }
  split; [exact Hne |]. split; [| split; [| split]].
  - intros task log Hin.
    destruct (proj1 (perf_data_lookup _ _ _ task Hitems Hnodup) log Hin)
      as [d [Hget [Hlog Hparse]]].
    unfold get_log_file, get_df. rewrite Hget. simpl.
    rewrite Hlog, Hparse. auto.
  - intros task Hnot.
    pose proof (proj2 (perf_data_lookup _ _ _ task Hitems Hnodup) Hnot) as Hget.
    unfold get_log_file, get_df. rewrite Hget. auto.
  - unfold tasks.
    apply StronglySorted_strict with (le := le_of name_leb).
    + intros a b Hle Hneq. apply name_leb_spec in Hle.
      destruct Hle as [-> | Hlt]; [contradiction | exact Hlt].
    + eapply Permutation_NoDup; [apply stable_sort_perm |].
      rewrite Hkeys. exact Hnodup.
    + apply stable_sort_sorted; [apply name_leb_total | apply name_leb_trans].
  - intros task. unfold tasks. rewrite stable_sort_In, Hkeys. reflexivity.
Qed.

Lemma PerfAnalysis_lookup_sample :
  exists perf_data,
    PerfAnalysis sample_read_csv sample_log_map = inr perf_data
    /\ get_log_file perf_data "a" = inr "rt-app-a-1.log"
    /\ get_log_file perf_data "c" = inl KeyError
    /\ StronglySorted (fun a b => String.ltb a b = true) (tasks perf_data).
Proof.
  destruct (PerfAnalysis sample_read_csv sample_log_map) as [e | perf_data] eqn:Hinit;
    [vm_compute in Hinit; discriminate |].
  assert (Hnodup : NoDup (map fst sample_log_map)).
  { simpl. constructor.
    - intros [Heq | []]. discriminate Heq.
    - constructor; [intros [] | constructor]. }
  destruct (PerfAnalysis_lookup sample_read_csv sample_log_map perf_data Hinit Hnodup)
    as [_ [Hin [Hout [Hsorted _]]]].
  exists perf_data. split; [reflexivity |].
  split; [| split; [| exact Hsorted]].
  - apply (Hin "a" "rt-app-a-1.log"). right. left. reflexivity.
  - apply (Hout "c"). simpl. intros [Heq | [Heq | []]]; discriminate Heq.
Defined.
